(** * lsx: configuration path resolution and module-type parsing

    A shallow embedding of [config.go] and [module.go] of the lsx library,
    and the properties of its specification that were checked against it.

    Go values are modelled as follows.
    - A Go [string] is a [string] (a sequence of bytes).
    - Go maps are reference values: a map lives in a store ([heap]) under a
      location, and a value of map type holds the location.  The entries of
      a map are kept as an association list; the order of the list stands
      for the order in which [range] and [MapKeys] enumerate the map.
    - Routines of the Go standard library whose result depends on the
      process or on a large external algorithm ([os.Getenv],
      [json.Marshal], the rendering of floats and of addresses by [fmt])
      are fields of the classes [Fmt] and [Platform].

    The file has two embeddings of config.go.  The first follows a call
    that returns, on trees whose pointers and maps are not nil and whose
    structs have exported fields only, with the letters of ASCII for the
    folding of case.  The second, the module [Full], takes every value an
    [interface{}] can hold, gives a call its three ways to end (a result,
    a panic, no return), and takes the functions of the standard library
    as they are. *)

From Stdlib Require Import ZArith String Ascii List Bool Lia DecimalString.
From Stdlib Require Import Floats.SpecFloat.
From stdpp Require Import gmap strings.

Set Warnings "-register-all".

Local Open Scope string_scope.
Local Open Scope Z_scope.

(** ** Strings *)

(** The double quote character, as text. *)
Definition dquote : string := String "034"%char EmptyString.

(** [%d] of an integer. *)
Definition decimal (z : Z) : string := NilZero.string_of_int (Z.to_int z).

Definition isUpperAscii (c : ascii) : bool :=
  let n := nat_of_ascii c in (Nat.leb 65 n && Nat.leb n 90)%bool.

Definition isLowerAscii (c : ascii) : bool :=
  let n := nat_of_ascii c in (Nat.leb 97 n && Nat.leb n 122)%bool.

Definition upperAscii (c : ascii) : ascii :=
  if isLowerAscii c then ascii_of_nat (nat_of_ascii c - 32) else c.

Definition lowerAscii (c : ascii) : ascii :=
  if isUpperAscii c then ascii_of_nat (nat_of_ascii c + 32) else c.

Fixpoint mapString (f : ascii -> ascii) (s : string) : string :=
  match s with
  | EmptyString => EmptyString
  | String c r => String (f c) (mapString f r)
  end.

(** [strings.ToUpper], on ASCII text: the letters a-z are mapped to A-Z and
    every other byte is kept. *)
Definition ToUpper (s : string) : string := mapString upperAscii s.

(** [strings.EqualFold], on ASCII text: equality up to the case of the
    letters a-z; every other byte is compared as it is. *)
Definition EqualFold (s t : string) : bool :=
  String.eqb (mapString lowerAscii s) (mapString lowerAscii t).

(** [strings.Replace(s, ".", "_", -1)]. *)
Definition replaceDots (s : string) : string :=
  mapString (fun c => if Ascii.eqb c "."%char then "_"%char else c) s.

(** [strings.Split(s, ".")]: the pieces of [s] between the dots; there is
    always at least one piece, the empty string has the single piece [EmptyString]. *)
Fixpoint Split (s : string) : list string :=
  match s with
  | EmptyString => [EmptyString]
  | String c r =>
      if Ascii.eqb c "."%char then EmptyString :: Split r
      else match Split r with
           | t :: ts => String c t :: ts
           | [] => [String c EmptyString]
           end
  end.

(** ** Floating-point numbers

    A [float32] or [float64] is one of the values of [spec_float]: a zero,
    an infinity, a NaN, or [(-1)^s * m * 2^e].  The four operations that
    [ParseModuleType] applies to a float are exact on that representation. *)

(** [tv > 0] *)
Definition fpositive (f : spec_float) : bool :=
  match f with
  | S754_finite false _ _ => true
  | S754_infinity false => true
  | _ => false
  end.

(** [tv <= 255] *)
Definition fle255 (f : spec_float) : bool :=
  match f with
  | S754_zero _ => true
  | S754_infinity s => s
  | S754_nan => false
  | S754_finite true _ _ => true
  | S754_finite false m e =>
      if 0 <=? e then Z.pos m * 2 ^ e <=? 255
      else Z.pos m <=? 255 * 2 ^ (- e)
  end.

(** [math.Mod(tv, 1) == 0] *)
Definition fwhole (f : spec_float) : bool :=
  match f with
  | S754_zero _ => true
  | S754_finite _ m e =>
      if 0 <=? e then true else Z.pos m mod 2 ^ (- e) =? 0
  | _ => false
  end.

(** The integer part of [tv] (conversion truncates towards zero). *)
Definition ftrunc (f : spec_float) : Z :=
  match f with
  | S754_finite s m e =>
      let a := if 0 <=? e then Z.pos m * 2 ^ e else Z.pos m / 2 ^ (- e) in
      if s then - a else a
  | _ => 0
  end.

(** [f] is the integer [k], exactly. *)
Definition fencodes (f : spec_float) (k : Z) : Prop :=
  match f with
  | S754_zero _ => k = 0
  | S754_finite s m e =>
      let k' := if s then - k else k in
      if 0 <=? e then Z.pos m * 2 ^ e = k'
      else Z.pos m = k' * 2 ^ (- e)
  | _ => False
  end.

(** ** module.go: the values handed to [ParseModuleType] *)

(** [type ModuleType uint8] *)
Definition ModuleType := Z.

Definition InvalidModuleType : ModuleType := 0.
Definition ClientModuleType : ModuleType := 1.
Definition ConfigModuleType : ModuleType := 2.
Definition LoggerModuleType : ModuleType := 3.
Definition ServerModuleType : ModuleType := 4.
Definition VolumeModuleType : ModuleType := 5.
Definition maxModuleType : ModuleType := VolumeModuleType.

Inductive uwidth := U8 | U16 | U32 | UWord | U64.
Inductive iwidth := I8 | I16 | I32 | IWord | I64.
Inductive fwidth := F32 | F64.

(** The dynamic value of the [interface{}] argument. *)
Inductive anyval : Type :=
| ANil                                   (* the nil interface *)
| AModuleType (t : ModuleType)
| AUint (w : uwidth) (n : Z)             (* uint8, uint16, uint32, uint, uint64 *)
| AInt (w : iwidth) (n : Z)              (* int8, int16, int32, int, int64 *)
| AFloat (w : fwidth) (f : spec_float)   (* float32, float64 *)
| AString (s : string)
| AStringer (s : string)                 (* a value of another type with a
                                            method String(), which returns s *)
| APtr (p : anyval)                      (* a pointer that is not nil *)
| AOther (rendering : string).           (* any other value, with its %v text *)

(** The text that [fmt] prints for a float and for the address held by a
    pointer. *)
Class Fmt := {
  formatFloat : fwidth -> spec_float -> string;
  formatPointer : anyval -> string
}.

(** A Go [error]: [None] is the nil error, [Some msg] an error whose
    [Error()] is [msg]. *)
Definition error := option string.

Definition uint8 (z : Z) : Z := z mod 256.

(** [func (t ModuleType) String() string] *)
Definition ModuleType_String (t : ModuleType) : string :=
  if t =? ClientModuleType then "client"
  else if t =? ConfigModuleType then "config"
  else if t =? LoggerModuleType then "logger"
  else if t =? ServerModuleType then "server"
  else if t =? VolumeModuleType then "volume"
  else "invalid".

(** [%v] of a value. *)
Definition formatV `{Fmt} (v : anyval) : string :=
  match v with
  | ANil => "<nil>"
  | AModuleType t => ModuleType_String t
  | AUint _ n => decimal n
  | AInt _ n => decimal n
  | AFloat w f => formatFloat w f
  | AString s => s
  | AStringer s => s
  | APtr p => formatPointer p
  | AOther r => r
  end.

(** [func errUnknownModuleType(v interface{}) (ModuleType, error)] *)
Definition errUnknownModuleType `{Fmt} (v : anyval) : ModuleType * error :=
  let v := match v with AModuleType mt => AUint U8 (uint8 mt) | _ => v end in
  (0, Some ("error: invalid module type: " +:+ formatV v)).

(** [func isValidModuleType(v ModuleType) (ModuleType, error)] *)
Definition isValidModuleType `{Fmt} (v : ModuleType) : ModuleType * error :=
  if (v <? InvalidModuleType + 1) || (v >? maxModuleType)
  then errUnknownModuleType (AModuleType v)
  else (v, None).

(** The loop of the [string] case: the first of the five types, in
    increasing order, whose name equals [tv] up to case. *)
Fixpoint firstNamed (tv : string) (mts : list ModuleType) : option ModuleType :=
  match mts with
  | [] => None
  | mt :: rest =>
      if EqualFold tv (ModuleType_String mt) then Some mt
      else firstNamed tv rest
  end.

Definition moduleTypes : list ModuleType :=
  [ClientModuleType; ConfigModuleType; LoggerModuleType;
   ServerModuleType; VolumeModuleType].

(** The case [string] of the type switch. *)
Definition parseString `{Fmt} (tv : string) : ModuleType * error :=
  match firstNamed tv moduleTypes with
  | Some mt => (mt, None)
  | None => errUnknownModuleType (AString tv)
  end.

(** The case [uint64] of the type switch. *)
Definition parseUint64 `{Fmt} (tv : Z) : ModuleType * error :=
  if tv <=? 255 then isValidModuleType (uint8 tv)
  else errUnknownModuleType (AUint U64 tv).

(** The case [int64] of the type switch. *)
Definition parseInt64 `{Fmt} (tv : Z) : ModuleType * error :=
  if (tv >? 0) && (tv <=? 255) then isValidModuleType (uint8 tv)
  else errUnknownModuleType (AInt I64 tv).

(** [func ParseModuleType(v interface{}) (ModuleType, error)].

    The cases of the type switch, in the order of the source.  A case
    [*T] calls [ParseModuleType] again on the pointee; the cases [uint],
    [int] and [fmt.Stringer] call it on a [uint64], an [int64] and a
    [string], which is written here as the body of that case.  A case
    whose guard fails leaves the switch and reaches the final
    [errUnknownModuleType(v)]. *)
Fixpoint ParseModuleType `{Fmt} (v : anyval) : ModuleType * error :=
  match v with
  | APtr p =>
      match p with
      | AModuleType t => (t, None)                      (* case *ModuleType *)
      | AUint _ _ | AInt _ _ | AFloat _ _ | AString _ =>
          ParseModuleType p                             (* case *uint8 ... *string *)
      | AStringer s => parseString s                    (* case fmt.Stringer *)
      | _ => errUnknownModuleType v
      end
  | AModuleType tv => isValidModuleType tv
  | AUint U8 tv => isValidModuleType tv
  | AUint UWord tv => parseUint64 tv
  | AUint _ tv =>
      if tv <=? 255 then isValidModuleType (uint8 tv)
      else errUnknownModuleType v
  | AInt I8 tv =>
      if (tv >? 0) && (tv <=? 127) then isValidModuleType (uint8 tv)
      else errUnknownModuleType v
  | AInt IWord tv => parseInt64 tv
  | AInt _ tv =>
      if (tv >? 0) && (tv <=? 255) then isValidModuleType (uint8 tv)
      else errUnknownModuleType v
  | AFloat _ tv =>
      if fpositive tv && fle255 tv && fwhole tv
      then isValidModuleType (uint8 (ftrunc tv))
      else errUnknownModuleType v
  | AStringer s => parseString s
  | AString tv => parseString tv
  | ANil | AOther _ => errUnknownModuleType v
  end.

(** ** module.go and the server registry: the registries

    The two registries are package variables guarded by a lock.  They are
    modelled for a run in which the calls follow one another: a registry
    is the map the variable holds, [RegisterModule] and [RegisterServer]
    return the map after the call.  A constructor [func() Module] is the
    function from [unit] to the instance it returns.  The interface
    values [Module] and [Server] are the values of a type with a nil
    value. *)

Section Registries.
Variable Module : Type.
Variable nilModule : Module.

(** [func() Module] *)
Definition moduleCtor := unit -> Module.

(** [mods = map[ModuleType]map[string]func() Module{}] *)
Definition moduleRegistry := gmap Z (gmap string moduleCtor).

(** [func RegisterModule(modType ModuleType, modName string, modCtor func() Module)] *)
Definition RegisterModule
    (mods : moduleRegistry) (modType : ModuleType) (modName : string)
    (modCtor : moduleCtor) : moduleRegistry :=
  match mods !! modType with
  | Some modCtorMap => <[modType := <[modName := modCtor]> modCtorMap]> mods
  | None => <[modType := <[modName := modCtor]> ∅]> mods
  end.

(** [func NewModule(modType ModuleType, modName string) Module] *)
Definition NewModule
    (mods : moduleRegistry) (modType : ModuleType) (modName : string) : Module :=
  match mods !! modType with
  | Some a =>
      match a !! modName with
      | Some b => b tt
      | None => nilModule
      end
  | None => nilModule
  end.

(** [serverCtors = map[string]serverCtor{}] *)
Definition serverRegistry := gmap string moduleCtor.

(** [func RegisterServer(name string, ctor serverCtor)] *)
Definition RegisterServer
    (serverCtors : serverRegistry) (name : string) (ctor : moduleCtor)
  : serverRegistry :=
  <[name := ctor]> serverCtors.

(** [func Servers() <-chan Server]: the servers that the function sends
    on the channel, one for each constructor of the registry, in the
    order in which the map is enumerated; it is what a reader receives
    that reads the channel until nothing more is sent. *)
Definition Servers (serverCtors : serverRegistry) : list Module :=
  (fun nc => snd nc tt) <$> map_to_list serverCtors.
End Registries.

(** The registry after the registrations [regs], made in order on the
    registry [mods]. *)
Definition registerAll (Module : Type)
    (mods : moduleRegistry Module)
    (regs : list (ModuleType * string * moduleCtor Module))
  : moduleRegistry Module :=
  fold_left (fun m r => RegisterModule Module m (fst (fst r)) (snd (fst r)) (snd r))
            regs mods.

(** The last registration of [regs] under the type [t] and the name [n]. *)
Definition lastRegistered (Module : Type)
    (t : ModuleType) (n : string)
    (regs : list (ModuleType * string * moduleCtor Module))
  : option (moduleCtor Module) :=
  option_map snd
    (find (fun r => (fst (fst r) =? t) && String.eqb (snd (fst r)) n) (rev regs)).

(** The largest value of an unsigned integer type. *)
Definition uintMax (w : uwidth) : Z :=
  match w with
  | U8 => 255
  | U16 => 65535
  | U32 => 4294967295
  | UWord | U64 => 18446744073709551615
  end.

(** What a call of [ParseModuleType] on [v] may return: a valid type and
    no error, the pointee of a pointer to a [ModuleType] and no error, or
    the invalid type and an error whose message starts as that of
    [errUnknownModuleType]. *)
Definition parseOutcome (v : anyval) (r : ModuleType * error) : Prop :=
  match r with
  | (t, None) => 1 <= t <= 5 \/ v = APtr (AModuleType t)
  | (t, Some msg) =>
      t = InvalidModuleType /\
      exists text, msg = "error: invalid module type: " +:+ text
  end.

(** ** config.go: the values of a configuration tree *)

(** The address of a map in the store. *)
Definition loc := positive.

(** What a marshalling routine returns: the bytes, or an error with its
    message. *)
Inductive result := Ok (buf : string) | Err (msg : string).

(** The methods of a defined type that [toStringWithOpts] asks for, with
    what each returns on the value at hand (value receivers). *)
Record methods := {
  m_String : option string;          (* fmt.Stringer *)
  m_MarshalJSON : option result;     (* json.Marshaler *)
  m_MarshalText : option result      (* encoding.TextMarshaler *)
}.

(** The dynamic value of an [interface{}].  The pointers, slices, maps
    and functions held in a tree are not nil; the nil [Config] is
    [VConfig None].  A map has keys of type [string].  A struct is the
    list of its exported fields in the order of their declaration; a field
    records whether it is declared with an interface type, which decides
    its [Kind()].  [VNamed] is a value of a defined type that is not a
    pointer type, with the methods of that type. *)
Inductive value : Type :=
| VNil                                        (* the nil interface *)
| VBool (b : bool)
| VInt (n : Z)                                (* the integer kinds *)
| VFloat (w : fwidth) (f : spec_float)
| VString (s : string)
| VPtr (p : value)
| VSlice (xs : list value)                    (* array or slice *)
| VMap (r : loc)                              (* map[string]interface{} *)
| VConfig (c : option loc)                    (* lsx.Config *)
| VStruct (flds : list (string * bool * value))  (* name, interface-typed, value *)
| VNamed (ty : string) (ms : methods) (v : value)
                                              (* a value of the defined type ty *)
| VFunc (ty : string)                         (* a channel or function of type ty *)
| VUnsafePointer (addr : string).

Arguments VMap r%_positive.

(** [type Config map[string]interface{}]: the map it refers to, [None]
    for the nil map. *)
Definition Config := option loc.

(** The entries of a map, in its enumeration order. *)
Definition obj := list (string * value).

(** The store of the maps. *)
Definition heap := gmap loc obj.

Definition configScopeKey : string := "@scope@".
Definition configParentKey : string := "@parent@".

(** The environment of the process and the JSON encoder of the standard
    library. *)
Class Platform := {
  Getenv : string -> string;               (* os.Getenv: empty when unset *)
  jsonMarshal : heap -> value -> result    (* json.Marshal *)
}.

Inductive kind :=
| Invalid | Bool | Int | Float | KString | Ptr | Slice | Map | Struct
| Func | UnsafePointer.

(** [reflect.Value.Kind()] *)
Fixpoint kindOf (v : value) : kind :=
  match v with
  | VNil => Invalid
  | VBool _ => Bool
  | VInt _ => Int
  | VFloat _ _ => Float
  | VString _ => KString
  | VPtr _ => Ptr
  | VSlice _ => Slice
  | VMap _ | VConfig _ => Map
  | VStruct _ => Struct
  | VNamed _ _ v => kindOf v
  | VFunc _ => Func
  | VUnsafePointer _ => UnsafePointer
  end.

(** The value under the defined types that wrap it. *)
Fixpoint underlying (v : value) : value :=
  match v with
  | VNamed _ _ v => underlying v
  | _ => v
  end.

(** [func derefValue(v reflect.Value) reflect.Value] *)
Fixpoint derefValue (v : value) : value :=
  match v with
  | VPtr p => derefValue p
  | _ => v
  end.

(** The entries of the map at [r]. *)
Definition objAt (h : heap) (r : loc) : obj := default [] (h !! r).

Definition entries (h : heap) (c : Config) : obj :=
  match c with
  | Some r => objAt h r
  | None => []
  end.

(** The entries of a value of kind [Map]. *)
Definition entriesOf (h : heap) (v : value) : obj :=
  match underlying v with
  | VMap r => objAt h r
  | VConfig c => entries h c
  | _ => []
  end.

(** The fields of a value of kind [Struct]. *)
Definition fieldsOf (v : value) : list (string * bool * value) :=
  match underlying v with
  | VStruct flds => flds
  | _ => []
  end.

(** The elements of a value of kind [Array] or [Slice]. *)
Definition elemsOf (v : value) : list value :=
  match underlying v with
  | VSlice xs => xs
  | _ => []
  end.

(** [m[k]]: the value and the ok flag. *)
Fixpoint index (k : string) (m : obj) : option value :=
  match m with
  | [] => None
  | (k', v) :: rest => if String.eqb k k' then Some v else index k rest
  end.

(** [m[k] = v]: the entry of [k] is replaced where it stands, a new key is
    entered after the others. *)
Fixpoint assign (k : string) (v : value) (m : obj) : obj :=
  match m with
  | [] => [(k, v)]
  | (k', v') :: rest =>
      if String.eqb k k' then (k, v) :: rest else (k', v') :: assign k v rest
  end.

Definition isNil (v : value) : bool :=
  match v with VNil => true | _ => false end.

(** [func (c Config) Len() int] *)
Definition Len (h : heap) (c : Config) : Z :=
  let l := Z.of_nat (length (entries h c)) in
  let l := match index configScopeKey (entries h c) with
           | Some _ => l - 1
           | None => l
           end in
  let l := match index configParentKey (entries h c) with
           | Some _ => l - 1
           | None => l
           end in
  l.

(** [func (c Config) Parent(ctx context.Context) Config] *)
Definition Parent (h : heap) (c : Config) : Config :=
  match index configParentKey (entries h c) with
  | None => None
  | Some pmap =>
      match pmap with
      | VConfig tpmap => tpmap
      | VMap tpmap => Some tpmap
      | _ => None
      end
  end.

(** [func getEnvVarName(path string) string] *)
Definition getEnvVarName (path : string) : string :=
  "LSX_" +:+ replaceDots (ToUpper path).

(** [k == configScopeKey || k == configParentKey] *)
Definition reserved (k : string) : bool :=
  String.eqb k configScopeKey || String.eqb k configParentKey.

(** The loop of [MarshalJSON] over the entries: [w] is the buffer, [cx]
    the number of entries written. *)
Fixpoint writeEntries `{Platform} (h : heap) (cl cx : Z) (kvs : obj) (w : string)
  : result :=
  match kvs with
  | [] => Ok w
  | (k, v) :: rest =>
      if reserved k then writeEntries h cl cx rest w
      else
        match jsonMarshal h v with
        | Err msg => Err msg
        | Ok buf =>
            let w := w +:+ dquote +:+ k +:+ dquote +:+ ":" +:+ buf in
            let w := if cx <? cl - 1 then w +:+ "," else w in
            writeEntries h cl (cx + 1) rest w
        end
  end.

(** [func (c Config) MarshalJSON() ([]byte, error)] *)
Definition MarshalJSON `{Platform} (h : heap) (c : Config) : result :=
  let cl := Z.of_nat (length (entries h c)) in
  let cl := match index configScopeKey (entries h c) with
            | Some (VString _) => cl - 1
            | _ => cl
            end in
  let cl := match index configParentKey (entries h c) with
            | Some (VConfig _) => cl - 1
            | _ => cl
            end in
  match writeEntries h cl 0 (entries h c) "{" with
  | Err msg => Err msg
  | Ok w => Ok (w +:+ "}")
  end.

(** The bytes as a string, or [err.Error()]. *)
Definition textOf (r : result) : string :=
  match r with Ok buf => buf | Err msg => msg end.

(** The cases [fmt.Stringer], [json.Marshaler] and
    [encoding.TextMarshaler] of the type switch, in that order. *)
Definition methodText (ms : methods) : option string :=
  match m_String ms with
  | Some s => Some s
  | None =>
      match m_MarshalJSON ms with
      | Some r => Some (textOf r)
      | None => option_map textOf (m_MarshalText ms)
      end
  end.

(** The type switch at the head of [toStringWithOpts]: the string it
    returns, [None] when no case applies.  A pointer has the methods of
    its pointee; [Config] has the method [MarshalJSON] above. *)
Definition stringRelated `{Platform} (h : heap) (v : value) : option string :=
  match v with
  | VString s => Some s
  | VPtr (VString s) => Some s
  | VNamed _ ms _ => methodText ms
  | VPtr (VNamed _ ms _) => methodText ms
  | VConfig c => Some (textOf (MarshalJSON h c))
  | VPtr (VConfig c) => Some (textOf (MarshalJSON h c))
  | _ => None
  end.

(** The name of the dynamic type, as [fmt] prints it for [%T] and in the
    text for a verb that does not fit the value. *)
Definition typeName (v : value) : string :=
  match v with
  | VNamed ty _ _ => ty
  | VBool _ => "bool"
  | VFloat F32 _ => "float32"
  | VFloat F64 _ => "float64"
  | VFunc ty => ty
  | _ => EmptyString
  end.

(** [fmt.Sprintf("%d", v)] for a value of a boolean or numeric kind:
    an integer in base 10; for any other kind the verb does not fit, and
    [fmt] prints [%!d(type=value)]. *)
Definition sprintf_d `{Fmt} (v : value) : string :=
  match underlying v with
  | VInt n => decimal n
  | VBool b =>
      "%!d(" +:+ typeName v +:+ "=" +:+ (if b then "true" else "false") +:+ ")"
  | VFloat w f =>
      "%!d(" +:+ typeName v +:+ "=" +:+ formatFloat w f +:+ ")"
  | _ => EmptyString
  end.

(** [func toStringWithOpts(v interface{}, deep bool) string].
    [None] is the run-time panic of the type assertion [.(string)] on a
    value of a defined string type.  The test of [isNillable] for a nil
    value never holds on the values of the model: the one nil value,
    the nil [Config], is taken by the type switch. *)
Definition toStringWithOpts `{Fmt} `{Platform}
    (h : heap) (v : value) (deep : bool) : option string :=
  match stringRelated h v with
  | Some s => Some s
  | None =>
      if negb deep then Some EmptyString
      else
        let vv := derefValue v in
        match kindOf vv with
        | KString =>
            match vv with VString s => Some s | _ => None end
        | Bool | Int | Float => Some (sprintf_d vv)
        | Slice | Map | Struct => Some (textOf (jsonMarshal h vv))
        | Func => Some (typeName vv)
        | UnsafePointer =>
            match underlying vv with
            | VUnsafePointer a => Some ("unsafe.Pointer " +:+ a)
            | _ => Some EmptyString
            end
        | _ => Some EmptyString
        end
  end.

(** [func toString(v interface{}) string] *)
Definition toString `{Fmt} `{Platform} (h : heap) (v : value) : option string :=
  toStringWithOpts h v true.

(** ** config.go: path resolution *)

(** [toStringWithOpts(v, false)] inside the traversal; without [deep] it
    always returns. *)
Definition shallowText `{Fmt} `{Platform} (h : heap) (v : value) : string :=
  default EmptyString (toStringWithOpts h v false).

(** Case [reflect.Map] of the traversal: the loop over the keys of the
    cursor.  The value of the first key that equals the token up to case
    becomes [next]. *)
Fixpoint scanKeys (tok : string) (kvs : obj) : value :=
  match kvs with
  | [] => VNil
  | (mapKey, v) :: rest =>
      if EqualFold tok mapKey then v else scanKeys tok rest
  end.

(** Case [reflect.Struct] of the traversal: the loop over the fields of
    the cursor. *)
Fixpoint scanFields (tok : string) (flds : list (string * bool * value)) : value :=
  match flds with
  | [] => VNil
  | (fldName, _, fldVal) :: rest =>
      if EqualFold tok fldName then fldVal else scanFields tok rest
  end.

(** An element of a sequence that is a map: the loop over its keys.
    [next] is what the cursor would move to before the loop; it becomes
    the element [el] at the first key named "name" whose value equals the
    token. *)
Fixpoint scanElemKeys `{Fmt} `{Platform}
    (h : heap) (tok : string) (el : value) (kvs : obj) (next : value) : value :=
  match kvs with
  | [] => next
  | (mapKey, mapVal) :: rest =>
      if negb (EqualFold "name" mapKey) then scanElemKeys h tok el rest next
      else if EqualFold tok (shallowText h (derefValue mapVal)) then el
      else scanElemKeys h tok el rest next
  end.

(** An element of a sequence that is a struct: the loop over its fields. *)
Fixpoint scanElemFields
    (tok : string) (el : value) (flds : list (string * bool * value))
    (next : value) : value :=
  match flds with
  | [] => next
  | (fldName, iface, fldVal) :: rest =>
      if EqualFold "name" fldName then
        match negb iface, underlying fldVal with
        | true, VString szFldVal =>
            if EqualFold tok szFldVal then el
            else scanElemFields tok el rest next
        | _, _ => scanElemFields tok el rest next
        end
      else if EqualFold tok fldName then fldVal
      else scanElemFields tok el rest next
  end.

(** The body of the loop over the elements of a sequence: what [next] is
    after the element [x] has been looked at. *)
Definition scanElem `{Fmt} `{Platform}
    (h : heap) (tok : string) (x : value) (next : value) : value :=
  let curValEl := derefValue x in
  match kindOf curValEl with
  | Map => scanElemKeys h tok curValEl (entriesOf h curValEl) next
  | Struct => scanElemFields tok curValEl (fieldsOf curValEl) next
  | _ => next
  end.

(** Case [reflect.Array, reflect.Slice] of the traversal: the loop over
    the elements.  The loop does not stop at a match. *)
Fixpoint scanElems `{Fmt} `{Platform}
    (h : heap) (tok : string) (xs : list value) (next : value) : value :=
  match xs with
  | [] => next
  | x :: rest => scanElems h tok rest (scanElem h tok x next)
  end.

(** One iteration of the loop over the path tokens: [next] for the cursor
    [cur] and the token [tok]. *)
Definition step `{Fmt} `{Platform} (h : heap) (tok : string) (cur : value) : value :=
  let curVal := derefValue cur in
  match kindOf curVal with
  | Map => scanKeys tok (entriesOf h curVal)
  | Slice => scanElems h tok (elemsOf curVal) VNil
  | Struct => scanFields tok (fieldsOf curVal)
  | _ => VNil
  end.

(** The loop over the path tokens: the cursor at its end, [VNil] as soon
    as one token finds nothing. *)
Fixpoint walk `{Fmt} `{Platform}
    (h : heap) (cur : value) (tokens : list string) : value :=
  match tokens with
  | [] => cur
  | tok :: rest =>
      let next := step h tok cur in
      if isNil next then VNil else walk h next rest
  end.

(** [func (c Config) get(ctx, path string, askParent bool) interface{}].
    The call on the parent is the one recursion that the path does not
    bound; [fuel] is the number of such calls allowed, and [None] is
    returned when more would be needed. *)
Fixpoint get `{Fmt} `{Platform}
    (fuel : nat) (h : heap) (c : Config) (path : string) (askParent : bool)
  : option value :=
  let v := Getenv (getEnvVarName path) in
  if negb (String.eqb v EmptyString) then Some (VString v)
  else
    let cur := walk h (VConfig c) (Split path) in
    if negb (isNil cur) then Some cur
    else if negb askParent then Some VNil
    else
      match Parent h c with
      | Some parent =>
          match fuel with
          | O => None
          | S fuel' => get fuel' h (Some parent) path askParent
          end
      | None => Some VNil
      end.

(** [func (c Config) Get(ctx, path string) interface{}] *)
Definition Get `{Fmt} `{Platform}
    (fuel : nat) (h : heap) (c : Config) (path : string) : option value :=
  get fuel h c path true.

(** [func (c Config) GetStr(ctx, path string) string]; [None] when [Get]
    does not return, or when the conversion panics. *)
Definition GetStr `{Fmt} `{Platform}
    (fuel : nat) (h : heap) (c : Config) (path : string) : option string :=
  match Get fuel h c path with
  | Some v => toString h v
  | None => None
  end.

(** [func (c Config) Scope(ctx, scope string) Config]: the store after
    the call, and the tree returned.  Without [askParent], [get] returns
    whatever the fuel. *)
Definition Scope `{Fmt} `{Platform}
    (h : heap) (c : Config) (scope : string) : heap * Config :=
  match get O h c scope false with
  | Some (VMap m) =>
      let config := objAt h m in
      let config := assign configParentKey (VConfig c) config in
      let config := assign configScopeKey (VString scope) config in
      (<[m := config]> h, Some m)
  | _ => (h, None)
  end.

(** ** A platform to run the code on

    The examples below are evaluated on a platform whose JSON encoder
    covers the values a decoded document is made of, and whose
    environment is given. *)

(** A JSON string literal for a text without control characters. *)
Fixpoint escapeJSON (s : string) : string :=
  match s with
  | EmptyString => EmptyString
  | String c r =>
      if Ascii.eqb c "034"%char || Ascii.eqb c "\"%char
      then String "\"%char (String c (escapeJSON r))
      else String c (escapeJSON r)
  end.

Definition quoteJSON (s : string) : string :=
  dquote +:+ escapeJSON s +:+ dquote.

(** The keys of a plain map are written in increasing order. *)
Fixpoint insertSorted (kv : string * value) (m : obj) : obj :=
  match m with
  | [] => [kv]
  | kv' :: rest =>
      if String.leb (fst kv) (fst kv') then kv :: m
      else kv' :: insertSorted kv rest
  end.

Definition sortKeys (m : obj) : obj := fold_right insertSorted [] m.

Fixpoint zeros (n : nat) : string :=
  match n with
  | O => EmptyString
  | S n => String "0"%char (zeros n)
  end.

Fixpoint stripTrailingZeros (s : string) : string :=
  match s with
  | EmptyString => EmptyString
  | String c r =>
      match stripTrailingZeros r with
      | EmptyString =>
          if Ascii.eqb c "0"%char then EmptyString else String c EmptyString
      | r' => String c r'
      end
  end.

(** The exact decimal expansion of a float.  It is the text [fmt]
    prints with [%v] for the floats whose shortest decimal form is exact
    and below 10^21, such as 4 and 1.5. *)
Definition exactDecimal (f : spec_float) : string :=
  match f with
  | S754_zero s => if s then "-0" else "0"
  | S754_infinity s => if s then "-Inf" else "+Inf"
  | S754_nan => "NaN"
  | S754_finite s m e =>
      (if s then "-" else EmptyString) +:+
      (if 0 <=? e then decimal (Z.pos m * 2 ^ e)
       else
         let k := - e in
         let n := Z.pos m * 5 ^ k in
         let d := decimal (n mod 10 ^ k) in
         let frac :=
           stripTrailingZeros (zeros (Z.to_nat k - String.length d) +:+ d) in
         match frac with
         | EmptyString => decimal (n / 10 ^ k)
         | _ => decimal (n / 10 ^ k) +:+ "." +:+ frac
         end)
  end.

Definition testFmt : Fmt := {|
  formatFloat := fun _ f => exactDecimal f;
  formatPointer := fun _ => "0xc000010000"
|}.

Section Encoder.
Variable env : string -> string.

(** The elements of an array, and the members of an object, separated
    by commas; [enc] encodes one value. *)
Fixpoint encodeList (enc : value -> result) (xs : list value) (sep : bool)
  : result :=
  match xs with
  | [] => Ok EmptyString
  | x :: rest =>
      match enc x, encodeList enc rest true with
      | Ok a, Ok b => Ok ((if sep then "," else EmptyString) +:+ a +:+ b)
      | Err e, _ => Err e
      | _, Err e => Err e
      end
  end.

Fixpoint encodeMembers (enc : value -> result) (kvs : obj) (sep : bool)
  : result :=
  match kvs with
  | [] => Ok EmptyString
  | (k, x) :: rest =>
      match enc x, encodeMembers enc rest true with
      | Ok a, Ok b =>
          Ok ((if sep then "," else EmptyString) +:+ quoteJSON k +:+ ":" +:+ a +:+ b)
      | Err e, _ => Err e
      | _, Err e => Err e
      end
  end.

(** [json.Marshal] on nil, booleans, integers, text, slices, plain maps
    and [Config] values, to the nesting depth [fuel]. *)
Fixpoint encodeJSON (fuel : nat) (h : heap) (v : value) : result :=
  match fuel with
  | O => Err "json: unsupported value"
  | S fuel' =>
      match v with
      | VNil => Ok "null"
      | VBool b => Ok (if b then "true" else "false")
      | VInt n => Ok (decimal n)
      | VString s => Ok (quoteJSON s)
      | VSlice xs =>
          match encodeList (encodeJSON fuel' h) xs false with
          | Ok a => Ok ("[" +:+ a +:+ "]")
          | Err e => Err e
          end
      | VMap r =>
          match encodeMembers (encodeJSON fuel' h) (sortKeys (objAt h r)) false with
          | Ok a => Ok ("{" +:+ a +:+ "}")
          | Err e => Err e
          end
      | VConfig c =>
          @MarshalJSON {| Getenv := env; jsonMarshal := encodeJSON fuel' |} h c
      | _ => Err "json: unsupported value"
      end
  end.
End Encoder.

(** The platform with the environment [env]. *)
Definition testPlatform (env : string -> string) : Platform := {|
  Getenv := env;
  jsonMarshal := encodeJSON env 64
|}.

(** No variable is set. *)
Definition noEnv : string -> string := fun _ => EmptyString.

(** [os.Setenv(name, val)] *)
Definition Setenv (name val : string) (env : string -> string) : string -> string :=
  fun n => if String.eqb n name then val else env n.

(** ** config_example.json, decoded

    The tree that [json.Unmarshal] builds from the example document of
    the test suite: the root is the [Config] at location 1, every nested
    object is a [map[string]interface{}] of its own. *)

Definition exampleHeap : heap :=
  list_to_map
    [ (1%positive,
        [ ("logging", VMap 2);
          ("servers", VSlice [VMap 3; VMap 4]);
          ("services", VSlice [VMap 5]);
          ("modules", VSlice [VMap 11; VMap 12; VMap 13; VMap 14; VMap 15]) ]);
      (2%positive,
        [ ("level", VString "debug");
          ("requests", VBool true);
          ("responses", VBool true) ]);
      (3%positive,
        [ ("name", VString "svr00");
          ("type", VString "libstorage");
          ("addrs", VSlice [VString "tcp://127.0.0.1:7979"]) ]);
      (4%positive,
        [ ("name", VString "svr01");
          ("type", VString "csi");
          ("addrs", VSlice [VString "tcp://127.0.0.1:8989";
                            VString "unix:///tmp/lsx/run/csi.sock"]) ]);
      (5%positive,
        [ ("name", VString "svc00");
          ("servers", VSlice [VString "svr00"; VString "svr01"]);
          ("logging", VMap 6);
          ("api", VMap 7) ]);
      (6%positive,
        [ ("level", VString "info");
          ("requests", VBool true);
          ("responses", VBool true) ]);
      (7%positive, [ ("volume", VMap 8) ]);
      (8%positive, [ ("attach", VMap 9); ("mount", VMap 10) ]);
      (9%positive, [ ("type", VString "vfs") ]);
      (10%positive,
        [ ("type", VString "libstorage");
          ("host", VString "tcp://192.168.0.192:7979") ]);
      (11%positive, [ ("path", VString "/tmp/lsx/lib/mods/config.so") ]);
      (12%positive, [ ("path", VString "/tmp/lsx/lib/mods/logger.so") ]);
      (13%positive,
        [ ("path", VString "/tmp/lsx/lib/mods/mock-client.so");
          ("names", VSlice [VString "libstorage"]) ]);
      (14%positive,
        [ ("path", VString "/tmp/lsx/lib/mods/mock-server.so");
          ("names", VSlice [VString "csi"; VString "libstorage"]) ]);
      (15%positive,
        [ ("path", VString "/tmp/lsx/lib/mods/mock-volume-driver.so");
          ("names", VSlice [VString "vfs"]) ]) ].

Definition exampleConfig : Config := Some 1%positive.

(** ** The trees a lookup consults *)

(** [lineage h c cs]: [cs] is [c], its parent, the parent of that one,
    and so on up to a tree that has no parent. *)
Inductive lineage (h : heap) : Config -> list Config -> Prop :=
| lineage_root c :
    Parent h c = None -> lineage h c [c]
| lineage_child c parent cs :
    Parent h c = Some parent -> lineage h (Some parent) cs ->
    lineage h c (c :: cs).

(** The first value that the traversal of [path] finds in the trees
    [cs], taken in order; [VNil] when none has it. *)
Fixpoint firstFound `{Fmt} `{Platform}
    (h : heap) (path : string) (cs : list Config) : value :=
  match cs with
  | [] => VNil
  | c :: rest =>
      let cur := walk h (VConfig c) (Split path) in
      if isNil cur then firstFound h path rest else cur
  end.

(** What [get] returns when it may not ask the parent: the value of the
    environment variable, else the end of the traversal. *)
Definition resolved `{Fmt} `{Platform}
    (h : heap) (c : Config) (path : string) : value :=
  let v := Getenv (getEnvVarName path) in
  if negb (String.eqb v EmptyString) then VString v
  else walk h (VConfig c) (Split path).

(** ** What a lookup needs to be unaffected by [Scope] *)

(** A token that is neither of the two reserved keys, up to case. *)
Definition plainToken (tok : string) : bool :=
  negb (EqualFold tok configScopeKey) && negb (EqualFold tok configParentKey).

Definition isConfig (v : value) : bool :=
  match v with VConfig _ => true | _ => false end.

(** No key named "name" of the map holds a [Config]. *)
Definition plainNames (kvs : obj) : bool :=
  forallb (fun kv => negb (EqualFold "name" (fst kv))
                     || negb (isConfig (derefValue (snd kv)))) kvs.

(** The same, for every map of the store. *)
Definition plainNamesIn (h : heap) : Prop :=
  forall r kvs, h !! r = Some kvs -> plainNames kvs = true.

(** ** What the encoding of a tree should be *)

(** No key occurs twice, as in every Go map. *)
Fixpoint uniqueKeys (kvs : obj) : bool :=
  match kvs with
  | [] => true
  | (k, _) :: rest =>
      match index k rest with
      | None => uniqueKeys rest
      | Some _ => false
      end
  end.

(** The scope key, when present, holds a text, and the parent key, when
    present, holds a [Config]. *)
Definition reservedWellTyped (kvs : obj) : bool :=
  match index configScopeKey kvs with
  | None | Some (VString _) => true
  | _ => false
  end
  &&
  match index configParentKey kvs with
  | None | Some (VConfig _) => true
  | _ => false
  end.

(** Some key of the entries is not reserved. *)
Definition hasMember (kvs : obj) : bool :=
  existsb (fun kv => negb (reserved (fst kv))) kvs.

(** The number of entries that are not reserved. *)
Definition memberCount (kvs : obj) : Z :=
  Z.of_nat (length (List.filter (fun kv => negb (reserved (fst kv))) kvs)).

(** The members of a JSON object for the entries that are not reserved:
    the key between quotes as it is, a colon, the encoding of the value,
    and a comma between two members. *)
Fixpoint members `{Platform} (h : heap) (kvs : obj) : result :=
  match kvs with
  | [] => Ok EmptyString
  | (k, v) :: rest =>
      if reserved k then members h rest
      else
        match jsonMarshal h v, members h rest with
        | Err msg, _ => Err msg
        | _, Err msg => Err msg
        | Ok buf, Ok tail =>
            Ok (dquote +:+ k +:+ dquote +:+ ":" +:+ buf
                  +:+ (if hasMember rest then "," else EmptyString) +:+ tail)
        end
  end.

(** ** Predicates for the properties of the traversal *)

(** Every character of the string satisfies [P]. *)
Fixpoint allChars (P : ascii -> bool) (s : string) : bool :=
  match s with
  | EmptyString => true
  | String c r => P c && allChars P r
  end.

(** Every byte of the text is below 128: a text of ASCII characters,
    on which [ToUpper] and [EqualFold] above are the functions of the
    package [strings]. *)
Definition isASCII (s : string) : bool :=
  allChars (fun c => Nat.ltb (nat_of_ascii c) 128) s.

(** A value below which the traversal finds nothing: after
    dereferencing it is neither a map, nor a sequence, nor a struct. *)
Definition isLeaf (v : value) : bool :=
  match kindOf (derefValue v) with
  | Map | Slice | Struct => false
  | _ => true
  end.

(** The error of the first entry, in the order of enumeration, that is
    not reserved and whose value [json.Marshal] rejects. *)
Fixpoint firstError `{Platform} (h : heap) (kvs : obj) : option string :=
  match kvs with
  | [] => None
  | (k, v) :: rest =>
      if reserved k then firstError h rest
      else match jsonMarshal h v with
           | Err msg => Some msg
           | Ok _ => firstError h rest
           end
  end.

(** ** The wording of the specification, for comparison *)

(** Select-by-name on an element of a sequence: some key or field named
    "name" holds the token. *)
Definition nameSelects `{Fmt} `{Platform}
    (h : heap) (tok : string) (el : value) : bool :=
  match kindOf el with
  | Map =>
      existsb (fun kv => EqualFold "name" (fst kv)
                         && EqualFold tok (shallowText h (derefValue (snd kv))))
              (entriesOf h el)
  | Struct =>
      existsb (fun f => match f with
                        | (n, iface, v) =>
                            EqualFold "name" n && negb iface
                            && match underlying v with
                               | VString s => EqualFold tok s
                               | _ => false
                               end
                        end)
              (fieldsOf el)
  | _ => false
  end.

(** The generic match on an element of a sequence: the value of the
    first key or field whose name is the token. *)
Definition genericSelects (h : heap) (tok : string) (el : value) : option value :=
  match kindOf el with
  | Map => option_map snd (find (fun kv => EqualFold tok (fst kv)) (entriesOf h el))
  | Struct =>
      option_map snd
        (find (fun f => EqualFold tok (fst (fst f))) (fieldsOf el))
  | _ => None
  end.

(** An element of a sequence as the specification describes it: the
    select-by-name check first, for maps and structs alike, and the
    generic match only when it fails. *)
Definition scanElem_as_specified `{Fmt} `{Platform}
    (h : heap) (tok : string) (x : value) (next : value) : value :=
  let el := derefValue x in
  if nameSelects h tok el then el
  else match genericSelects h tok el with
       | Some v => v
       | None => next
       end.

(** Whether the field [f] of a struct element decides for the token, as
    the code has it: a field named "name" by its string value, any other
    field by its name. *)
Definition fieldSelects (tok : string) (f : string * bool * value) : bool :=
  match f with
  | (n, iface, v) =>
      if EqualFold "name" n then
        negb iface && match underlying v with
                      | VString s => EqualFold tok s
                      | _ => false
                      end
      else EqualFold tok n
  end.

(** [Scope] as the specification describes it: the empty tree when the
    path resolves to no associative container, else the container with
    the two reserved keys set. *)
Definition Scope_as_specified `{Fmt} `{Platform}
    (h : heap) (c : Config) (scope : string) : Prop :=
  forall v, get O h c scope false = Some v ->
    (kindOf v <> Map -> Scope h c scope = (h, None)) /\
    (kindOf v = Map ->
     exists m, snd (Scope h c scope) = Some m /\
       index configParentKey (objAt (fst (Scope h c scope)) m) = Some (VConfig c) /\
       index configScopeKey (objAt (fst (Scope h c scope)) m)
         = Some (VString scope)).


(** ** Trees for the examples *)

(** The example tree after [Scope(ctx, "services.svc00")], and the tree
    that call returns. *)
Definition scopedHeap : heap :=
  fst (@Scope testFmt (testPlatform noEnv) exampleHeap exampleConfig "services.svc00").

Definition scopedConfig : Config :=
  snd (@Scope testFmt (testPlatform noEnv) exampleHeap exampleConfig "services.svc00").

(** The example tree after [Scope(ctx, "servers.svr00")], and the tree
    that call returns. *)
Definition svr00Heap : heap :=
  fst (@Scope testFmt (testPlatform noEnv) exampleHeap exampleConfig "servers.svr00").

Definition svr00Config : Config :=
  snd (@Scope testFmt (testPlatform noEnv) exampleHeap exampleConfig "servers.svr00").

(** The environment of the test "with LSX_LOGGING_LEVEL set". *)
Definition debugEnv : string -> string :=
  Setenv "LSX_LOGGING_LEVEL" "debug" noEnv.

(** An environment that overrides the path [services.svc00]. *)
Definition svc00Env : string -> string :=
  Setenv "LSX_SERVICES_SVC00" "elsewhere" noEnv.

(** The tree scoped to the service svc00, scoped again through its
    parent to the same service: the map of the service becomes its own
    parent. *)
Definition selfParentHeap : heap :=
  fst (@Scope testFmt (testPlatform noEnv) scopedHeap scopedConfig
         "@parent@.services.svc00").

(** The example tree with the members "data" and "array" that the test
    suite adds: a pointer to a [testStruct], and a slice of an integer, a
    text, a map and a pointer to a [testStruct]. *)
Definition testStruct (name : string) (world : loc) : value :=
  VStruct [ ("Name", false, VString name); ("World", false, VMap world) ].

Arguments testStruct name world%_positive.

Definition testHeap : heap :=
  <[ 1%positive :=
       (objAt exampleHeap 1%positive ++
        [ ("data", VPtr (testStruct "hello" 23));
          ("array", VSlice [ VInt 1; VString "two"; VMap 20;
                             VPtr (testStruct "hello" 21) ]) ])%list ]>
  (<[ 20%positive := [ ("name", VString "c3p0");
                       ("myTestStruct", VPtr (testStruct "hello" 22)) ] ]>
  (<[ 21%positive := [ ("logLevel", VInt 10) ] ]>
  (<[ 22%positive := [ ("logLevel", VInt 5) ] ]>
  (<[ 23%positive := [ ("logLevel", VInt 10) ] ]> exampleHeap)))).


(** A tree with one key, which holds a double quote: what
    [json.Unmarshal] builds from the document with the member
    [a\u0022b] and the value "x". *)
Definition quotedKey : string := "a" +:+ dquote +:+ "b".

Definition quotedKeyHeap : heap :=
  list_to_map [ (1%positive, [ (quotedKey, VString "x") ]) ].

(** A tree whose reserved scope key does not hold a text, as
    [json.Unmarshal] builds it from a document that has a member
    "@scope@". *)
Definition oddScopeHeap : heap :=
  list_to_map
    [ (1%positive, [ (configScopeKey, VBool true); ("a", VString "x") ]) ].

(** Two trees in one store: at 1 the keys "a" and "b", at 2 a single
    key that spells the text between the outer quotes of the first
    tree's encoding. *)
Definition twinKey : string :=
  "a" +:+ dquote +:+ ":" +:+ dquote +:+ "x" +:+ dquote +:+ ","
      +:+ dquote +:+ "b".

Definition twinHeap : heap :=
  list_to_map
    [ (1%positive, [ ("a", VString "x"); ("b", VString "y") ]);
      (2%positive, [ (twinKey, VString "y") ]) ].

(** ** config.go on every value: nil maps and pointers, unexported
    fields, panics and calls that do not return

    The definitions above follow a call that returns on a tree of
    non-nil values whose structs have exported fields only.  The module
    [Full] embeds [Parent], [Scope], [get] and the functions they call
    once more, over every value an [interface{}] can hold and with the
    three ways a call can end.  What the standard library contributes is
    a field of the class [Runtime], so that a property of the module
    holds for the library as it is: [strings.EqualFold] with the case
    folding of Unicode, [json.Marshal] with the calls on which it does
    not return. *)

Module Full.

(** How a call ends. *)
Inductive outcome (A : Type) : Type :=
| Ret (a : A)       (* it returns a *)
| Panic             (* it panics *)
| NoReturn.         (* it does not return: the recursion does not end,
                       the stack overflows *)

Arguments Ret {A} a.
Arguments Panic {A}.
Arguments NoReturn {A}.

Definition bind {A B : Type} (o : outcome A) (f : A -> outcome B) : outcome B :=
  match o with
  | Ret a => f a
  | Panic => Panic
  | NoReturn => NoReturn
  end.

Notation "x <- o ;; k" := (bind o (fun x => k))
  (at level 100, o at next level, right associativity).

(** The methods of a type that [toStringWithOpts] asks for, with how
    the call of each ends on the value at hand. *)
Record methods := {
  m_String : option (outcome string);          (* fmt.Stringer *)
  m_MarshalJSON : option (outcome result);     (* json.Marshaler *)
  m_MarshalText : option (outcome result)      (* encoding.TextMarshaler *)
}.

(** The dynamic value of an [interface{}].  [None] is the nil pointer,
    slice or map of the type; a chain of pointers ends.  A pointer carries the methods of its
    pointer type.  A struct is the list of all its fields in the order of
    their declaration: the name, whether the field is exported, whether it
    is declared with an interface type, and the value.  [VMapOf] is a map
    of a type other than [map[string]interface{}] and [Config], with its
    entries in the order of enumeration. *)
Inductive value : Type :=
| VNil                                        (* the nil interface *)
| VBool (b : bool)
| VInt (n : Z)                                (* the integer kinds *)
| VFloat (w : fwidth) (f : spec_float)
| VComplex (d : string)                        (* a complex number, with the
                                                 text of [%d] for it *)
| VString (s : string)
| VStringPtr (p : option string)              (* *string *)
| VPtr (ms : methods) (p : option value)      (* a pointer of another type *)
| VSlice (xs : option (list value))           (* array or slice *)
| VMap (r : option loc)                       (* map[string]interface{} *)
| VConfig (c : option loc)                    (* lsx.Config *)
| VMapOf (kvs : option (list (value * value)))
| VStruct (flds : list (string * bool * bool * value))
| VNamed (ty : string) (ms : methods) (v : value)
                                              (* a value of the defined type ty *)
| VFunc (ty : string) (isnil : bool)          (* a channel or function of type ty *)
| VUnsafePointer (addr : string).

(** [type Config map[string]interface{}] *)
Definition Config := option loc.

(** The entries of a map with keys of type [string], in its enumeration
    order. *)
Definition obj := list (string * value).

(** The store of the maps of type [map[string]interface{}] and
    [Config]. *)
Definition heap := gmap loc obj.

(** The standard library and the process.  [debug] is the package
    variable that [LSX_DEBUG] sets; [Fprintf] is the call that prints the
    trace of a value. *)
Class Runtime := {
  Getenv : string -> string;                         (* os.Getenv *)
  EqualFold : string -> string -> bool;              (* strings.EqualFold *)
  ToUpper : string -> string;                        (* strings.ToUpper *)
  jsonMarshal : heap -> value -> outcome result;     (* json.Marshal *)
  jsonMarshalIndent : heap -> value -> outcome result;
  Fprintf : heap -> value -> outcome unit;
  debug : bool
}.

(** The kinds of [reflect] as the code tells them apart: the integer
    kinds are one, an array goes with a slice, a channel with a
    function. *)
Inductive kind :=
| Invalid | Bool | Int | Float | Complex | KString | Ptr | Slice | Map | Struct
| Func | UnsafePointer.

(** [reflect.Value.Kind()] *)
Fixpoint kindOf (v : value) : kind :=
  match v with
  | VNil => Invalid
  | VBool _ => Bool
  | VInt _ => Int
  | VFloat _ _ => Float
  | VComplex _ => Complex
  | VString _ => KString
  | VStringPtr _ | VPtr _ _ => Ptr
  | VSlice _ => Slice
  | VMap _ | VConfig _ | VMapOf _ => Map
  | VStruct _ => Struct
  | VNamed _ _ v => kindOf v
  | VFunc _ _ => Func
  | VUnsafePointer _ => UnsafePointer
  end.

(** The value under the defined types that wrap it. *)
Fixpoint underlying (v : value) : value :=
  match v with
  | VNamed _ _ v => underlying v
  | _ => v
  end.

(** [v.IsNil()] on a value of a kind that can be nil: the second result
    of [isNillable(reflect.ValueOf(v))]. *)
Fixpoint isNilValue (v : value) : bool :=
  match v with
  | VStringPtr None | VPtr _ None | VSlice None | VMap None | VConfig None
  | VMapOf None => true
  | VFunc _ isnil => isnil
  | VNamed _ _ v => isNilValue v
  | _ => false
  end.

(** [func derefValue(v reflect.Value) reflect.Value]: a nil pointer is
    returned as it is. *)
Fixpoint derefValue (v : value) : value :=
  match v with
  | VStringPtr (Some s) => VString s
  | VPtr _ (Some p) => derefValue p
  | VNamed _ _ p =>
      match kindOf p with
      | Ptr => if isNilValue p then v else derefValue p
      | _ => v
      end
  | _ => v
  end.

(** The entries of the map at [r]. *)
Definition objAt (h : heap) (r : loc) : obj := default [] (h !! r).

Definition entries (h : heap) (c : Config) : obj :=
  match c with
  | Some r => objAt h r
  | None => []
  end.

(** The keys and values of a value of kind [Map], as [MapKeys] and
    [MapIndex] give them. *)
Definition entriesOf (h : heap) (v : value) : list (value * value) :=
  match underlying v with
  | VMap c | VConfig c => map (fun kv => (VString (fst kv), snd kv)) (entries h c)
  | VMapOf (Some kvs) => kvs
  | _ => []
  end.

(** The fields of a value of kind [Struct]. *)
Definition fieldsOf (v : value) : list (string * bool * bool * value) :=
  match underlying v with
  | VStruct flds => flds
  | _ => []
  end.

(** The elements of a value of kind [Array] or [Slice]. *)
Definition elemsOf (v : value) : list value :=
  match underlying v with
  | VSlice (Some xs) => xs
  | _ => []
  end.

(** [m[k]]: the value and the ok flag. *)
Fixpoint index (k : string) (m : obj) : option value :=
  match m with
  | [] => None
  | (k', v) :: rest => if String.eqb k k' then Some v else index k rest
  end.

(** [m[k] = v] on a map that is not nil. *)
Fixpoint assign (k : string) (v : value) (m : obj) : obj :=
  match m with
  | [] => [(k, v)]
  | (k', v') :: rest =>
      if String.eqb k k' then (k, v) :: rest else (k', v') :: assign k v rest
  end.

Definition isNil (v : value) : bool :=
  match v with VNil => true | _ => false end.

(** [func (c Config) Parent(ctx context.Context) Config] *)
Definition Parent (h : heap) (c : Config) : Config :=
  match index configParentKey (entries h c) with
  | None => None
  | Some pmap =>
      match pmap with
      | VConfig tpmap => tpmap
      | VMap tpmap => tpmap
      | _ => None
      end
  end.

(** [func getEnvVarName(path string) string] *)
Definition getEnvVarName `{Runtime} (path : string) : string :=
  "LSX_" +:+ replaceDots (ToUpper path).

(** The loop of [MarshalJSON] over the entries: [w] is the buffer, [cx]
    the number of entries written. *)
Fixpoint writeEntries `{Runtime} (h : heap) (cl cx : Z) (kvs : obj) (w : string)
  : outcome result :=
  match kvs with
  | [] => Ret (Ok w)
  | (k, v) :: rest =>
      if reserved k then writeEntries h cl cx rest w
      else
        r <- jsonMarshal h v ;;
        match r with
        | Err msg => Ret (Err msg)
        | Ok buf =>
            let w := w +:+ dquote +:+ k +:+ dquote +:+ ":" +:+ buf in
            let w := if cx <? cl - 1 then w +:+ "," else w in
            writeEntries h cl (cx + 1) rest w
        end
  end.

(** [func (c Config) MarshalJSON() ([]byte, error)] *)
Definition MarshalJSON `{Runtime} (h : heap) (c : Config) : outcome result :=
  let cl := Z.of_nat (length (entries h c)) in
  let cl := match index configScopeKey (entries h c) with
            | Some (VString _) => cl - 1
            | _ => cl
            end in
  let cl := match index configParentKey (entries h c) with
            | Some (VConfig _) => cl - 1
            | _ => cl
            end in
  r <- writeEntries h cl 0 (entries h c) "{" ;;
  match r with
  | Err msg => Ret (Err msg)
  | Ok w => Ret (Ok (w +:+ "}"))
  end.

(** The bytes as a string, or [err.Error()]. *)
Definition textOfCall (o : outcome result) : outcome string :=
  r <- o ;; Ret (textOf r).

(** The cases [fmt.Stringer], [json.Marshaler] and
    [encoding.TextMarshaler] of the type switch, in that order. *)
Definition methodText (ms : methods) : option (outcome string) :=
  match m_String ms with
  | Some o => Some o
  | None =>
      match m_MarshalJSON ms with
      | Some o => Some (textOfCall o)
      | None => option_map textOfCall (m_MarshalText ms)
      end
  end.

(** The type switch at the head of [toStringWithOpts]: how the case
    taken ends, [None] when no case applies.  [case *string] dereferences
    the pointer, nil or not.  [Config] and a pointer to it have the method
    [MarshalJSON] above. *)
Definition stringRelated `{Runtime} (h : heap) (v : value)
  : option (outcome string) :=
  match v with
  | VString s => Some (Ret s)
  | VStringPtr (Some s) => Some (Ret s)
  | VStringPtr None => Some Panic
  | VNamed _ ms _ => methodText ms
  | VConfig c => Some (textOfCall (MarshalJSON h c))
  | VPtr _ (Some (VConfig c)) => Some (textOfCall (MarshalJSON h c))
  | VPtr ms _ => methodText ms
  | _ => None
  end.

(** The name of the dynamic type, as [fmt] prints it. *)
Definition typeName (v : value) : string :=
  match v with
  | VNamed ty _ _ => ty
  | VBool _ => "bool"
  | VFloat F32 _ => "float32"
  | VFloat F64 _ => "float64"
  | VFunc ty _ => ty
  | _ => EmptyString
  end.

(** [fmt.Sprintf("%d", v)] for a value of a boolean or numeric kind. *)
Definition sprintf_d `{Fmt} (v : value) : string :=
  match underlying v with
  | VInt n => decimal n
  | VBool b =>
      "%!d(" +:+ typeName v +:+ "=" +:+ (if b then "true" else "false") +:+ ")"
  | VFloat w f =>
      "%!d(" +:+ typeName v +:+ "=" +:+ formatFloat w f +:+ ")"
  | VComplex d => d
  | _ => EmptyString
  end.

(** [func toStringWithOpts(v interface{}, deep bool) string] *)
Definition toStringWithOpts `{Fmt} `{Runtime}
    (h : heap) (v : value) (deep : bool) : outcome string :=
  match stringRelated h v with
  | Some o => o
  | None =>
      if negb deep then Ret EmptyString
      else if isNilValue v then Ret EmptyString
      else
        let vv := derefValue v in
        match kindOf vv with
        | KString =>
            match vv with VString s => Ret s | _ => Panic end
        | Bool | Int | Float | Complex => Ret (sprintf_d vv)
        | Slice | Map | Struct => textOfCall (jsonMarshal h vv)
        | Func => Ret (typeName vv)
        | UnsafePointer =>
            match underlying vv with
            | VUnsafePointer a => Ret ("unsafe.Pointer " +:+ a)
            | _ => Ret EmptyString
            end
        | _ => Ret EmptyString
        end
  end.

(** [func toString(v interface{}) string] *)
Definition toString `{Fmt} `{Runtime} (h : heap) (v : value) : outcome string :=
  toStringWithOpts h v true.

(** [func logCurVal(path string, tokIdx int, tok string, curVal
    reflect.Value)]: nothing unless [debug]; then the value is encoded,
    with the error dropped, and printed. *)
Definition logCurVal `{Runtime} (h : heap) (curVal : value) : outcome unit :=
  if negb debug then Ret tt
  else _ <- jsonMarshalIndent h curVal ;; Fprintf h curVal.

(** Case [reflect.Map] of the traversal: the loop over the keys of the
    cursor. *)
Fixpoint scanKeys `{Fmt} `{Runtime}
    (h : heap) (tok : string) (kvs : list (value * value)) : outcome value :=
  match kvs with
  | [] => Ret VNil
  | (mapKey, v) :: rest =>
      szMapKey <- toString h (derefValue mapKey) ;;
      if EqualFold tok szMapKey then Ret v else scanKeys h tok rest
  end.

(** Case [reflect.Struct] of the traversal: the loop over the fields of
    the cursor.  [fldVal.Interface()] panics on a field that is not
    exported. *)
Fixpoint scanFields `{Runtime}
    (tok : string) (flds : list (string * bool * bool * value)) : outcome value :=
  match flds with
  | [] => Ret VNil
  | (fldName, exported, _, fldVal) :: rest =>
      if EqualFold tok fldName then
        if exported then Ret fldVal else Panic
      else scanFields tok rest
  end.

(** An element of a sequence that is a map: the loop over its keys.
    [next] is what the cursor would move to before the loop; it becomes
    the element [el] at the first key named "name" whose value equals the
    token. *)
Fixpoint scanElemKeys `{Fmt} `{Runtime}
    (h : heap) (tok : string) (el : value) (kvs : list (value * value))
    (next : value) : outcome value :=
  match kvs with
  | [] => Ret next
  | (mapKey, mapVal) :: rest =>
      szMapKey <- toString h (derefValue mapKey) ;;
      if negb (EqualFold "name" szMapKey) then scanElemKeys h tok el rest next
      else
        szMapVal <- toStringWithOpts h (derefValue mapVal) false ;;
        if EqualFold tok szMapVal then Ret el
        else scanElemKeys h tok el rest next
  end.

(** An element of a sequence that is a struct: the loop over its fields.
    [fldVal.String()] reads a field that is not exported,
    [fldVal.Interface()] panics on it. *)
Fixpoint scanElemFields `{Runtime}
    (tok : string) (el : value) (flds : list (string * bool * bool * value))
    (next : value) : outcome value :=
  match flds with
  | [] => Ret next
  | (fldName, exported, iface, fldVal) :: rest =>
      if EqualFold "name" fldName then
        match negb iface, underlying fldVal with
        | true, VString szFldVal =>
            if EqualFold tok szFldVal then Ret el
            else scanElemFields tok el rest next
        | _, _ => scanElemFields tok el rest next
        end
      else if EqualFold tok fldName then
        if exported then Ret fldVal else Panic
      else scanElemFields tok el rest next
  end.

(** The body of the loop over the elements of a sequence: what [next] is
    after the element [x] has been looked at. *)
Definition scanElem `{Fmt} `{Runtime}
    (h : heap) (tok : string) (x : value) (next : value) : outcome value :=
  let curValEl := derefValue x in
  _ <- logCurVal h curValEl ;;
  match kindOf curValEl with
  | Map => scanElemKeys h tok curValEl (entriesOf h curValEl) next
  | Struct => scanElemFields tok curValEl (fieldsOf curValEl) next
  | _ => Ret next
  end.

(** Case [reflect.Array, reflect.Slice] of the traversal: the loop over
    the elements.  The loop does not stop at a match. *)
Fixpoint scanElems `{Fmt} `{Runtime}
    (h : heap) (tok : string) (xs : list value) (next : value) : outcome value :=
  match xs with
  | [] => Ret next
  | x :: rest =>
      next <- scanElem h tok x next ;;
      scanElems h tok rest next
  end.

(** One iteration of the loop over the path tokens: [next] for the cursor
    [cur] and the token [tok]. *)
Definition step `{Fmt} `{Runtime}
    (h : heap) (tok : string) (cur : value) : outcome value :=
  let curVal := derefValue cur in
  _ <- logCurVal h curVal ;;
  match kindOf curVal with
  | Map => scanKeys h tok (entriesOf h curVal)
  | Slice => scanElems h tok (elemsOf curVal) VNil
  | Struct => scanFields tok (fieldsOf curVal)
  | _ => Ret VNil
  end.

(** The loop over the path tokens: the cursor at its end, [VNil] as soon
    as one token finds nothing. *)
Fixpoint walk `{Fmt} `{Runtime}
    (h : heap) (cur : value) (tokens : list string) : outcome value :=
  match tokens with
  | [] => Ret cur
  | tok :: rest =>
      next <- step h tok cur ;;
      if isNil next then Ret VNil else walk h next rest
  end.

(** [func (c Config) get(ctx, path string, askParent bool) interface{}].
    [fuel] is the number of calls on a parent allowed; a call that would
    need more is given as not returning. *)
Fixpoint get `{Fmt} `{Runtime}
    (fuel : nat) (h : heap) (c : Config) (path : string) (askParent : bool)
  : outcome value :=
  let v := Getenv (getEnvVarName path) in
  if negb (String.eqb v EmptyString) then Ret (VString v)
  else
    cur <- walk h (VConfig c) (Split path) ;;
    if negb (isNil cur) then Ret cur
    else if negb askParent then Ret VNil
    else
      match Parent h c with
      | Some parent =>
          match fuel with
          | O => NoReturn
          | S fuel' => get fuel' h (Some parent) path askParent
          end
      | None => Ret VNil
      end.

(** [func (c Config) Get(ctx, path string) interface{}] *)
Definition Get `{Fmt} `{Runtime}
    (fuel : nat) (h : heap) (c : Config) (path : string) : outcome value :=
  get fuel h c path true.

(** [func (c Config) Scope(ctx, scope string) Config]: the store after
    the call, and the tree returned.  The assignment to an entry of a nil
    map panics. *)
Definition Scope `{Fmt} `{Runtime}
    (h : heap) (c : Config) (scope : string) : outcome (heap * Config) :=
  v <- get O h c scope false ;;
  match v with
  | VMap (Some m) =>
      let config := objAt h m in
      let config := assign configParentKey (VConfig c) config in
      let config := assign configScopeKey (VString scope) config in
      Ret (<[m := config]> h, Some m)
  | VMap None => Panic
  | _ => Ret (h, None)
  end.

(** What [get] gives when it may not ask the parent: the value of the
    environment variable, else the end of the traversal. *)
Definition resolved `{Fmt} `{Runtime}
    (h : heap) (c : Config) (path : string) : outcome value :=
  let v := Getenv (getEnvVarName path) in
  if negb (String.eqb v EmptyString) then Ret (VString v)
  else walk h (VConfig c) (Split path).

(** [lineage h c cs]: [cs] is [c], its parent, the parent of that one,
    and so on up to a tree that has no parent. *)
Inductive lineage (h : heap) : Config -> list Config -> Prop :=
| lineage_root c :
    Parent h c = None -> lineage h c [c]
| lineage_child c parent cs :
    Parent h c = Some parent -> lineage h (Some parent) cs ->
    lineage h c (c :: cs).

(** The [n]-th ancestor of the tree [c]: [c] itself for 0, and the nil
    tree beyond a tree without parent. *)
Fixpoint ancestor (h : heap) (n : nat) (c : Config) : Config :=
  match n with
  | O => c
  | S n => ancestor h n (Parent h c)
  end.

(** How the lookup of [path] in the trees [cs], taken in order, ends: as
    the first traversal that does not end in absence, and in absence
    when all do. *)
Fixpoint firstFound `{Fmt} `{Runtime}
    (h : heap) (path : string) (cs : list Config) : outcome value :=
  match cs with
  | [] => Ret VNil
  | c :: rest =>
      cur <- walk h (VConfig c) (Split path) ;;
      if isNil cur then firstFound h path rest else Ret cur
  end.

(** The text of a call that returned, the empty text otherwise. *)
Definition textOr (o : outcome string) : string :=
  match o with
  | Ret s => s
  | _ => EmptyString
  end.

(** Some key named "name" of the entries holds the token. *)
Definition nameSelects `{Fmt} `{Runtime}
    (h : heap) (tok : string) (kvs : list (value * value)) : bool :=
  existsb (fun kv =>
             EqualFold "name" (textOr (toString h (derefValue (fst kv))))
             && EqualFold tok
                  (textOr (toStringWithOpts h (derefValue (snd kv)) false)))
          kvs.

(** The text of every key of the entries is obtained, and so is the
    text of the value of every key named "name". *)
Definition textsReturn `{Fmt} `{Runtime}
    (h : heap) (kvs : list (value * value)) : Prop :=
  Forall (fun kv =>
            exists k, toString h (derefValue (fst kv)) = Ret k /\
              (EqualFold "name" k = true ->
               exists s, toStringWithOpts h (derefValue (snd kv)) false = Ret s))
         kvs.

(** Whether the field [f] of a struct element decides for the token: a
    field named "name" by its string value, any other field by its
    name. *)
Definition fieldSelects `{Runtime}
    (tok : string) (f : string * bool * bool * value) : bool :=
  match f with
  | (n, _, iface, v) =>
      if EqualFold "name" n then
        negb iface && match underlying v with
                      | VString s => EqualFold tok s
                      | _ => false
                      end
      else EqualFold tok n
  end.

(** The fallback as the specification describes it: with a parent, the
    variable unset and a traversal that ends in absence, [Get] returns,
    a value or absence. *)
Definition Get_as_specified `{Fmt} `{Runtime}
    (h : heap) (c : Config) (path : string) : Prop :=
  Parent h c <> None ->
  Getenv (getEnvVarName path) = EmptyString ->
  walk h (VConfig c) (Split path) = Ret VNil ->
  exists fuel v, Get fuel h c path = Ret v.

(** No key occurs twice, as in every Go map. *)
Fixpoint uniqueKeys (kvs : obj) : bool :=
  match kvs with
  | [] => true
  | (k, _) :: rest =>
      match index k rest with
      | None => uniqueKeys rest
      | Some _ => false
      end
  end.

(** The scope key, when present, holds a text, and the parent key, when
    present, holds a [Config]. *)
Definition reservedWellTyped (kvs : obj) : bool :=
  match index configScopeKey kvs with
  | None | Some (VString _) => true
  | _ => false
  end
  &&
  match index configParentKey kvs with
  | None | Some (VConfig _) => true
  | _ => false
  end.

(** Some key of the entries is not reserved. *)
Definition hasMember (kvs : obj) : bool :=
  existsb (fun kv => negb (reserved (fst kv))) kvs.

(** The number of entries that are not reserved. *)
Definition memberCount (kvs : obj) : Z :=
  Z.of_nat (length (List.filter (fun kv => negb (reserved (fst kv))) kvs)).

(** The members of a JSON object for the entries that are not reserved,
    encoded one after the other: the key between quotes as it is, a
    colon, the encoding of the value, and a comma between two members. *)
Fixpoint members `{Runtime} (h : heap) (kvs : obj) : outcome result :=
  match kvs with
  | [] => Ret (Ok EmptyString)
  | (k, v) :: rest =>
      if reserved k then members h rest
      else
        r <- jsonMarshal h v ;;
        match r with
        | Err msg => Ret (Err msg)
        | Ok buf =>
            t <- members h rest ;;
            match t with
            | Err msg => Ret (Err msg)
            | Ok tail =>
                Ret (Ok (dquote +:+ k +:+ dquote +:+ ":" +:+ buf
                           +:+ (if hasMember rest then "," else EmptyString)
                           +:+ tail))
            end
        end
  end.

(** How the calls of [json.Marshal] on the values of the keys that are
    not reserved, made in the order of enumeration, end: [Ret None] when
    each returns bytes, else as the first that does not, [Ret (Some msg)]
    for an error with the text [msg]. *)
Fixpoint firstFailure `{Runtime} (h : heap) (kvs : obj) : outcome (option string) :=
  match kvs with
  | [] => Ret None
  | (k, v) :: rest =>
      if reserved k then firstFailure h rest
      else
        r <- jsonMarshal h v ;;
        match r with
        | Err msg => Ret (Some msg)
        | Ok _ => firstFailure h rest
        end
  end.

End Full.

(** ** The trees of the examples as values of [Full] *)

Definition liftMethods (ms : methods) : Full.methods := {|
  Full.m_String := option_map Full.Ret (m_String ms);
  Full.m_MarshalJSON := option_map Full.Ret (m_MarshalJSON ms);
  Full.m_MarshalText := option_map Full.Ret (m_MarshalText ms)
|}.

Definition noMethods : Full.methods := {|
  Full.m_String := None;
  Full.m_MarshalJSON := None;
  Full.m_MarshalText := None
|}.

(** A value of the first part as a value of [Full]: its pointers are not
    nil, its fields are exported. *)
Fixpoint lift (v : value) : Full.value :=
  match v with
  | VNil => Full.VNil
  | VBool b => Full.VBool b
  | VInt n => Full.VInt n
  | VFloat w f => Full.VFloat w f
  | VString s => Full.VString s
  | VPtr p =>
      match p with
      | VString s => Full.VStringPtr (Some s)
      | VNamed _ ms _ => Full.VPtr (liftMethods ms) (Some (lift p))
      | _ => Full.VPtr noMethods (Some (lift p))
      end
  | VSlice xs => Full.VSlice (Some (map lift xs))
  | VMap r => Full.VMap (Some r)
  | VConfig c => Full.VConfig c
  | VStruct flds =>
      Full.VStruct
        (map (fun f => match f with
                       | (n, iface, x) => (n, true, iface, lift x)
                       end) flds)
  | VNamed ty ms x => Full.VNamed ty (liftMethods ms) (lift x)
  | VFunc ty => Full.VFunc ty false
  | VUnsafePointer a => Full.VUnsafePointer a
  end.

Definition liftObj (m : obj) : Full.obj :=
  map (fun kv => (fst kv, lift (snd kv))) m.

Definition liftHeap (h : heap) : Full.heap := liftObj <$> h.

(** The store after a call of [Scope] that returned, and the tree it
    returned. *)
Definition storeAfter (o : Full.outcome (Full.heap * Full.Config))
    (h : Full.heap) : Full.heap :=
  match o with
  | Full.Ret (h', _) => h'
  | _ => h
  end.

Definition treeAfter (o : Full.outcome (Full.heap * Full.Config)) : Full.Config :=
  match o with
  | Full.Ret (_, c) => c
  | _ => None
  end.

Section FullEncoder.
Variable env : string -> string.

(** The elements of an array, separated by commas; [enc] encodes one
    value. *)
Fixpoint encodeElems (enc : Full.value -> Full.outcome result)
    (xs : list Full.value) (sep : bool) : Full.outcome result :=
  match xs with
  | [] => Full.Ret (Ok EmptyString)
  | x :: rest =>
      Full.bind (enc x) (fun a =>
      match a with
      | Err e => Full.Ret (Err e)
      | Ok a =>
          Full.bind (encodeElems enc rest true) (fun b =>
          match b with
          | Err e => Full.Ret (Err e)
          | Ok b => Full.Ret (Ok ((if sep then "," else EmptyString) +:+ a +:+ b))
          end)
      end)
  end.

(** The members of an object. *)
Fixpoint encodeFields (enc : Full.value -> Full.outcome result)
    (kvs : Full.obj) (sep : bool) : Full.outcome result :=
  match kvs with
  | [] => Full.Ret (Ok EmptyString)
  | (k, x) :: rest =>
      Full.bind (enc x) (fun a =>
      match a with
      | Err e => Full.Ret (Err e)
      | Ok a =>
          Full.bind (encodeFields enc rest true) (fun b =>
          match b with
          | Err e => Full.Ret (Err e)
          | Ok b =>
              Full.Ret (Ok ((if sep then "," else EmptyString)
                              +:+ quoteJSON k +:+ ":" +:+ a +:+ b))
          end)
      end)
  end.

Fixpoint insertSortedFull (kv : string * Full.value) (m : Full.obj) : Full.obj :=
  match m with
  | [] => [kv]
  | kv' :: rest =>
      if String.leb (fst kv) (fst kv') then kv :: m
      else kv' :: insertSortedFull kv rest
  end.

(** [json.Marshal] on nil, booleans, integers, text, pointers, slices,
    plain maps and [Config] values.  The encoder follows the values
    without a limit: on a value that holds itself it does not return,
    which is where the nesting depth [fuel] runs out. *)
Fixpoint encodeFull (fuel : nat) (h : Full.heap) (v : Full.value)
  : Full.outcome result :=
  match fuel with
  | O => Full.NoReturn
  | S fuel' =>
      let rt := {| Full.Getenv := env;
                   Full.EqualFold := EqualFold;
                   Full.ToUpper := ToUpper;
                   Full.jsonMarshal := encodeFull fuel';
                   Full.jsonMarshalIndent := encodeFull fuel';
                   Full.Fprintf := fun _ _ => Full.Ret tt;
                   Full.debug := false |} in
      match v with
      | Full.VNil | Full.VStringPtr None | Full.VPtr _ None
      | Full.VSlice None | Full.VMap None => Full.Ret (Ok "null")
      | Full.VBool b => Full.Ret (Ok (if b then "true" else "false"))
      | Full.VInt n => Full.Ret (Ok (decimal n))
      | Full.VString s | Full.VStringPtr (Some s) => Full.Ret (Ok (quoteJSON s))
      | Full.VPtr _ (Some (Full.VConfig c)) | Full.VConfig c =>
          @Full.MarshalJSON rt h c
      | Full.VSlice (Some xs) =>
          Full.bind (encodeElems (encodeFull fuel' h) xs false) (fun a =>
          match a with
          | Ok a => Full.Ret (Ok ("[" +:+ a +:+ "]"))
          | Err e => Full.Ret (Err e)
          end)
      | Full.VMap (Some r) =>
          Full.bind
            (encodeFields (encodeFull fuel' h)
               (fold_right insertSortedFull [] (Full.objAt h r)) false)
            (fun a =>
          match a with
          | Ok a => Full.Ret (Ok ("{" +:+ a +:+ "}"))
          | Err e => Full.Ret (Err e)
          end)
      | _ => Full.Ret (Err "json: unsupported value")
      end
  end.
End FullEncoder.

(** A run with the environment [env]: the letters of ASCII fold and
    rise as in the first part, the trace is off unless [dbg]. *)
Definition testRuntime (env : string -> string) (dbg : bool) : Full.Runtime := {|
  Full.Getenv := env;
  Full.EqualFold := EqualFold;
  Full.ToUpper := ToUpper;
  Full.jsonMarshal := encodeFull env 64;
  Full.jsonMarshalIndent := encodeFull env 64;
  Full.Fprintf := fun _ _ => Full.Ret tt;
  Full.debug := dbg
|}.

(** The example tree, before and after [Scope(ctx, "services.svc00")],
    and after the tree that call returns is scoped again, through its
    parent, to the same service: the map of the service becomes its own
    parent. *)
Definition exampleFull : Full.heap := liftHeap exampleHeap.

Definition scopedFull : Full.heap :=
  storeAfter (@Full.Scope testFmt (testRuntime noEnv false) exampleFull
                exampleConfig "services.svc00") exampleFull.

Definition selfParentFull : Full.heap :=
  storeAfter (@Full.Scope testFmt (testRuntime noEnv false) scopedFull
                (Some 5%positive) "@parent@.services.svc00") scopedFull.

(** A struct with a field that is not exported, as the test suite could
    declare it beside [testStruct]; and the same with the field
    exported. *)
Definition hiddenStruct (exported : bool) : Full.value :=
  Full.VStruct [ ("Name", true, false, Full.VString "hello");
                 ("world", exported, false, Full.VMap None) ].

(** A tree with the member "data", a struct whose field "World" is a
    nil [map[string]interface{}] (the zero value of [testStruct]), the
    member "array", a sequence of a struct with a field that is not
    exported and of a map whose name is a nil pointer to a text, and the
    member "inner", a map. *)
Definition zeroHeap : Full.heap :=
  list_to_map
    [ (1%positive,
        [ ("data", Full.VStruct [ ("Name", true, false, Full.VString EmptyString);
                                  ("World", true, false, Full.VMap None) ]);
          ("array", Full.VSlice (Some [ hiddenStruct false; Full.VMap (Some 2%positive) ]));
          ("inner", Full.VMap (Some 3%positive)) ]);
      (2%positive, [ ("name", Full.VStringPtr None) ]);
      (3%positive, [ ("level", Full.VString "info") ]) ].

(** The same after [Scope(ctx, "inner")], which returns the tree at 3. *)
Definition zeroScoped : Full.heap :=
  storeAfter (@Full.Scope testFmt (testRuntime noEnv false) zeroHeap
                (Some 1%positive) "inner") zeroHeap.

(** * Properties of module.go *)

Section ModuleTypeFacts.
Context `{Fmt}.

Lemma valid_ordinal_cases (k : ModuleType) :
  1 <= k <= 5 -> k = 1 \/ k = 2 \/ k = 3 \/ k = 4 \/ k = 5.
Proof. lia. Qed.

Lemma isValidModuleType_accepts (k : ModuleType) :
  1 <= k <= 5 -> isValidModuleType k = (k, None).
Proof.
  intros Hk. unfold isValidModuleType, InvalidModuleType, maxModuleType,
    VolumeModuleType.
  destruct (k <? 0 + 1) eqn:E1; [apply Z.ltb_lt in E1; lia|].
  destruct (k >? 5) eqn:E2; [|reflexivity].
  rewrite Z.gtb_ltb in E2. apply Z.ltb_lt in E2. lia.
Qed.

Lemma uint8_small (k : Z) : 0 <= k < 256 -> uint8 k = k.
Proof. intros Hk. unfold uint8. apply Z.mod_small. lia. Qed.

(** A float that is exactly one of 1..5 passes the three guards of the
    float cases and converts to that ordinal. *)
Lemma fencodes_accepted (f : spec_float) (k : Z) :
  1 <= k <= 5 -> fencodes f k ->
  fpositive f = true /\ fle255 f = true /\ fwhole f = true /\ ftrunc f = k.
Proof.
  intros Hk Hf. destruct f as [s| | |s m e]; simpl in Hf; try lia; try contradiction.
  destruct (0 <=? e) eqn:He.
  - assert (He' : 0 <= e) by (apply Z.leb_le; exact He).
    assert (Hp : 0 < 2 ^ e) by (apply Z.pow_pos_nonneg; lia).
    destruct s; [exfalso; nia|].
    simpl. rewrite He. repeat split; try reflexivity; [|exact Hf].
    apply Z.leb_le. lia.
  - assert (He' : e < 0) by (apply Z.leb_gt; exact He).
    assert (Hp : 0 < 2 ^ (- e)) by (apply Z.pow_pos_nonneg; lia).
    destruct s; [exfalso; nia|].
    simpl. rewrite He, Hf. repeat split.
    + apply Z.leb_le. nia.
    + apply Z.eqb_eq. apply Z_mod_mult.
    + apply Z_div_mult. lia.
Qed.

(** C7.  For each of the five valid ordinals, the canonical name, the
    name in upper case, the ordinal held in an integer of any signed or
    unsigned width, and every float that is exactly the ordinal are all
    parsed without error to the type with that ordinal. *)
Theorem ParseModuleType_accepts_every_form (k : ModuleType) :
  1 <= k <= 5 ->
  ParseModuleType (AString (ModuleType_String k)) = (k, None) /\
  ParseModuleType (AString (ToUpper (ModuleType_String k))) = (k, None) /\
  (forall w, ParseModuleType (AUint w k) = (k, None)) /\
  (forall w, ParseModuleType (AInt w k) = (k, None)) /\
  (forall w f, fencodes f k -> ParseModuleType (AFloat w f) = (k, None)).
Proof.
  intros Hk. split; [|split; [|split; [|split]]].
  - destruct (valid_ordinal_cases k Hk) as [->|[->|[->|[->| ->]]]]; reflexivity.
  - destruct (valid_ordinal_cases k Hk) as [->|[->|[->|[->| ->]]]]; reflexivity.
  - intros w.
    destruct (valid_ordinal_cases k Hk) as [->|[->|[->|[->| ->]]]];
      destruct w; reflexivity.
  - intros w.
    destruct (valid_ordinal_cases k Hk) as [->|[->|[->|[->| ->]]]];
      destruct w; reflexivity.
  - intros w f Hf.
    destruct (fencodes_accepted f k Hk Hf) as (Hp & Hl & Hw & Ht).
    simpl. rewrite Hp, Hl, Hw, Ht. simpl.
    rewrite uint8_small by lia. apply isValidModuleType_accepts, Hk.
Qed.

(** C8 (the defect).  A pointer to a [ModuleType] is returned as it is,
    without the check that the same value meets when it is passed
    directly: for every ordinal [t] outside 1..5, the pointer to [t] is
    parsed without error, to [t] itself, while [t] passed by value is
    rejected with its raw number in the message. *)
Theorem ParseModuleType_pointer_not_validated (t : ModuleType) :
  0 <= t < 256 -> ~ (1 <= t <= 5) ->
  ParseModuleType (APtr (AModuleType t)) = (t, None) /\
  ParseModuleType (AModuleType t)
    = (InvalidModuleType, Some ("error: invalid module type: " +:+ decimal t)).
Proof.
  intros Hrange Hinvalid. split; [reflexivity|].
  cbn [ParseModuleType]. unfold isValidModuleType, InvalidModuleType,
    maxModuleType, VolumeModuleType.
  assert (Hguard : (t <? 0 + 1) || (t >? 5) = true).
  { apply orb_true_iff. destruct (Z.ltb_spec t (0 + 1)) as [Hl|Hl];
      [left; reflexivity|right].
    rewrite Z.gtb_ltb. apply Z.ltb_lt. lia. }
  rewrite Hguard. unfold errUnknownModuleType.
  rewrite uint8_small by exact Hrange. reflexivity.
Qed.

(** Whatever the ordinal, the pointer case returns it with no error. *)
Lemma ParseModuleType_pointer_any (t : ModuleType) :
  ParseModuleType (APtr (AModuleType t)) = (t, None).
Proof. reflexivity. Qed.

(** The other invalid inputs of the test suite are rejected with their
    rendering in the message, directly and behind a pointer. *)
Lemma ParseModuleType_rejects_examples :
  ParseModuleType (AString "volumeService")
    = (0, Some "error: invalid module type: volumeService") /\
  ParseModuleType (AInt I8 (-1)) = (0, Some "error: invalid module type: -1") /\
  ParseModuleType (APtr (AInt I8 (-1)))
    = (0, Some "error: invalid module type: -1") /\
  ParseModuleType (AInt IWord (-2)) = (0, Some "error: invalid module type: -2") /\
  ParseModuleType (AString EmptyString) = (0, Some "error: invalid module type: ") /\
  ParseModuleType ANil = (0, Some "error: invalid module type: <nil>") /\
  ParseModuleType (AModuleType 9) = (0, Some "error: invalid module type: 9") /\
  ParseModuleType (AFloat F64 (S754_finite false 3 (-1)))
    = (0, Some ("error: invalid module type: "
                +:+ formatFloat F64 (S754_finite false 3 (-1)))).
Proof. repeat split. Qed.
End ModuleTypeFacts.

(** The invalid ordinal 0, behind a pointer and by value. *)
Lemma ParseModuleType_pointer_not_validated_witness :
  0 <= InvalidModuleType < 256 /\ ~ (1 <= InvalidModuleType <= 5) /\
  @ParseModuleType testFmt (APtr (AModuleType InvalidModuleType))
    = (InvalidModuleType, None) /\
  @ParseModuleType testFmt (AModuleType InvalidModuleType)
    = (InvalidModuleType, Some "error: invalid module type: 0").
Proof.
  assert (Hrange : 0 <= InvalidModuleType < 256) by (unfold InvalidModuleType; lia).
  assert (Hinvalid : ~ (1 <= InvalidModuleType <= 5))
    by (unfold InvalidModuleType; lia).
  split; [exact Hrange|]. split; [exact Hinvalid|].
  exact (@ParseModuleType_pointer_not_validated testFmt InvalidModuleType
           Hrange Hinvalid).
Defined.

(** The ordinal 4 in every form. *)
Lemma ParseModuleType_accepts_every_form_witness :
  1 <= 4 <= 5 /\
  fencodes (S754_finite false 1 2) 4 /\
  @ParseModuleType testFmt (AString "server") = (ServerModuleType, None) /\
  @ParseModuleType testFmt (AString "SERVER") = (ServerModuleType, None) /\
  @ParseModuleType testFmt (AUint U16 4) = (ServerModuleType, None) /\
  @ParseModuleType testFmt (AInt I64 4) = (ServerModuleType, None) /\
  @ParseModuleType testFmt (AFloat F32 (S754_finite false 1 2))
    = (ServerModuleType, None).
Proof.
  assert (Hk : 1 <= 4 <= 5) by lia.
  assert (Hf : fencodes (S754_finite false 1 2) 4) by reflexivity.
  destruct (@ParseModuleType_accepts_every_form testFmt 4 Hk)
    as (Hn & Hu & Hw & Hi & Hfl).
  split; [exact Hk|]. split; [exact Hf|].
  split; [exact Hn|]. split; [exact Hu|].
  split; [exact (Hw U16)|]. split; [exact (Hi I64)|].
  exact (Hfl F32 _ Hf).
Defined.

(** * Properties of config.go *)

Section ConfigFacts.
Context `{Fmt} `{Platform}.

(** ** The store *)

Lemma index_assign_eq (k : string) (v : value) (m : obj) :
  index k (assign k v m) = Some v.
Proof.
  induction m as [|[k' v'] m IH]; simpl.
  - rewrite String.eqb_refl. reflexivity.
  - destruct (String.eqb k k') eqn:E; simpl.
    + rewrite String.eqb_refl. reflexivity.
    + rewrite E. exact IH.
Qed.

Lemma index_assign_ne (k k0 : string) (v : value) (m : obj) :
  k <> k0 -> index k0 (assign k v m) = index k0 m.
Proof.
  intros Hne. induction m as [|[k' v'] m IH]; simpl.
  - destruct (String.eqb k0 k) eqn:E; [|reflexivity].
    apply String.eqb_eq in E. congruence.
  - destruct (String.eqb k k') eqn:E; simpl.
    + apply String.eqb_eq in E. subst k'.
      destruct (String.eqb k0 k) eqn:E0; [|reflexivity].
      apply String.eqb_eq in E0. congruence.
    + destruct (String.eqb k0 k'); [reflexivity|exact IH].
Qed.

(** Assigning a reserved key leaves the other entries, and their order,
    as they are. *)
Lemma filter_assign_reserved (k : string) (v : value) (m : obj) :
  reserved k = true ->
  List.filter (fun kv => negb (reserved (fst kv))) (assign k v m)
  = List.filter (fun kv => negb (reserved (fst kv))) m.
Proof.
  intros Hk. induction m as [|[k' v'] m IH]; cbn -[reserved].
  - rewrite Hk. reflexivity.
  - destruct (String.eqb k k') eqn:E; cbn -[reserved].
    + apply String.eqb_eq in E. subst k'. rewrite Hk. reflexivity.
    + rewrite IH. reflexivity.
Qed.

Lemma objAt_insert_eq (h : heap) (r : loc) (m : obj) :
  objAt (<[r := m]> h) r = m.
Proof. unfold objAt, heap. rewrite lookup_insert_eq. reflexivity. Qed.

(** ** The traversal *)

(** Without [deep], [toStringWithOpts] returns. *)
Lemma toStringWithOpts_shallow (h : heap) (v : value) :
  toStringWithOpts h v false = Some (shallowText h v).
Proof.
  unfold shallowText, toStringWithOpts.
  destruct (stringRelated h v); reflexivity.
Qed.

Lemma get_unfold (fuel : nat) (h : heap) (c : Config) (path : string) (ask : bool) :
  get fuel h c path ask =
  let v := Getenv (getEnvVarName path) in
  if negb (String.eqb v EmptyString) then Some (VString v)
  else
    let cur := walk h (VConfig c) (Split path) in
    if negb (isNil cur) then Some cur
    else if negb ask then Some VNil
    else
      match Parent h c with
      | Some parent =>
          match fuel with
          | O => None
          | S fuel' => get fuel' h (Some parent) path ask
          end
      | None => Some VNil
      end.
Proof. destruct fuel; reflexivity. Qed.

Lemma eqb_empty_false (v : string) : v <> EmptyString -> String.eqb v EmptyString = false.
Proof.
  intros Hv. destruct (String.eqb v EmptyString) eqn:E; [|reflexivity].
  apply String.eqb_eq in E. contradiction.
Qed.

Lemma get_no_parent (fuel : nat) (h : heap) (c : Config) (path : string) :
  get fuel h c path false = Some (resolved h c path).
Proof.
  rewrite get_unfold. unfold resolved. cbv zeta.
  destruct (negb (String.eqb (Getenv (getEnvVarName path)) EmptyString)); [reflexivity|].
  destruct (walk h (VConfig c) (Split path)); reflexivity.
Qed.

(** ** The environment override *)

(** C1.  When the variable named by the prefix [LSX_] followed by the
    path in upper case with its dots replaced by underscores holds a text
    [v] that is not empty, [Get] returns [v] for every tree, whatever the
    tree stores; the same holds for [get] at every call of the recursion
    on the ancestors, with or without [askParent]. *)
Theorem Get_returns_environment_override
    (fuel : nat) (h : heap) (c : Config) (path : string) (v : string) :
  Getenv ("LSX_" +:+ replaceDots (ToUpper path)) = v ->
  v <> EmptyString ->
  Get fuel h c path = Some (VString v) /\
  forall fuel' c' askParent, get fuel' h c' path askParent = Some (VString v).
Proof.
  intros Hv Hne.
  assert (Hget : forall fuel' c' ask, get fuel' h c' path ask = Some (VString v)).
  { intros fuel' c' ask. rewrite get_unfold. cbv zeta.
    unfold getEnvVarName. rewrite Hv, (eqb_empty_false v Hne). reflexivity. }
  split; [apply Hget|exact Hget].
Qed.

(** C10.  When the variable derived from the path is set to a text that
    is not empty, [Scope] returns the nil tree and leaves the store as it
    is, wherever the traversal of the path would end. *)
Theorem Scope_is_empty_under_environment_override
    (h : heap) (c : Config) (path : string) :
  Getenv (getEnvVarName path) <> EmptyString ->
  Scope h c path = (h, None) /\
  get O h c path false = Some (VString (Getenv (getEnvVarName path))).
Proof.
  intros Hne. unfold Scope. rewrite get_no_parent. unfold resolved. cbv zeta.
  rewrite (eqb_empty_false _ Hne). split; reflexivity.
Qed.

(** ** The fallback to the parent *)

Lemma get_lineage (h : heap) (path : string) (c : Config) (cs : list Config) :
  Getenv (getEnvVarName path) = EmptyString ->
  lineage h c cs ->
  forall fuel, (length cs <= S fuel)%nat ->
  get fuel h c path true = Some (firstFound h path cs).
Proof.
  intros Henv Hl. induction Hl as [c Hp|c parent cs Hp Hl IH]; intros fuel Hfuel.
  - rewrite get_unfold. cbv zeta. rewrite Henv. simpl.
    destruct (walk h (VConfig c) (Split path)); simpl; try reflexivity.
    rewrite Hp. reflexivity.
  - rewrite get_unfold. cbv zeta. rewrite Henv. simpl.
    destruct (walk h (VConfig c) (Split path)); simpl; try reflexivity.
    rewrite Hp. destruct fuel as [|fuel].
    + simpl in Hfuel. inversion Hl; subst; simpl in Hfuel; lia.
    + apply IH. simpl in Hfuel. lia.
Qed.

(** A tree that has no parent answers absence when its own traversal
    ends in absence. *)
Lemma Get_absent_without_parent
    (fuel : nat) (h : heap) (c : Config) (path : string) :
  Getenv (getEnvVarName path) = EmptyString ->
  walk h (VConfig c) (Split path) = VNil ->
  Parent h c = None ->
  Get fuel h c path = Some VNil.
Proof.
  intros Henv Hwalk Hp. unfold Get. rewrite get_unfold. cbv zeta.
  rewrite Henv, Hwalk, Hp. reflexivity.
Qed.

(** ** The elements of a sequence *)


Lemma scanElemFields_spec (tok : string) (el : value)
    (flds : list (string * bool * value)) (next : value) :
  scanElemFields tok el flds next =
  match find (fieldSelects tok) flds with
  | Some (n, _, v) => if EqualFold "name" n then el else v
  | None => next
  end.
Proof.
  induction flds as [|[[n iface] v] flds IH]; [reflexivity|].
  cbn [scanElemFields find fieldSelects].
  destruct (EqualFold "name" n) eqn:En.
  - destruct iface; cbn [negb andb]; [exact IH|].
    destruct (underlying v); try exact IH.
    destruct (EqualFold tok s); [rewrite En; reflexivity|exact IH].
  - destruct (EqualFold tok n); [rewrite En; reflexivity|exact IH].
Qed.

(** ** Scope *)

Lemma reserved_keys_differ : configScopeKey <> configParentKey.
Proof. discriminate. Qed.

(** ** Lookups after Scope *)

Lemma stringRelated_heap (h h' : heap) (x : value) :
  isConfig (derefValue x) = false ->
  stringRelated h' (derefValue x) = stringRelated h (derefValue x).
Proof.
  induction x; cbn [derefValue]; intros Hc; try reflexivity;
    try discriminate Hc.
  exact (IHx Hc).
Qed.

Lemma shallowText_heap (h h' : heap) (x : value) :
  isConfig (derefValue x) = false ->
  shallowText h' (derefValue x) = shallowText h (derefValue x).
Proof.
  intros Hc. unfold shallowText, toStringWithOpts.
  rewrite (stringRelated_heap h h' x Hc). reflexivity.
Qed.

Lemma scanKeys_assign (tok k : string) (v : value) (kvs : obj) :
  EqualFold tok k = false ->
  scanKeys tok (assign k v kvs) = scanKeys tok kvs.
Proof.
  intros Hk. induction kvs as [|[k' v'] kvs IH]; cbn [assign scanKeys].
  - rewrite Hk. reflexivity.
  - destruct (String.eqb k k') eqn:E; cbn [scanKeys].
    + apply String.eqb_eq in E. subst k'. rewrite Hk. reflexivity.
    + rewrite IH. reflexivity.
Qed.

Lemma scanElemKeys_assign (h : heap) (tok k : string) (el v : value)
    (kvs : obj) (next : value) :
  EqualFold "name" k = false ->
  scanElemKeys h tok el (assign k v kvs) next = scanElemKeys h tok el kvs next.
Proof.
  intros Hk. induction kvs as [|[k' v'] kvs IH]; cbn [assign scanElemKeys].
  - rewrite Hk. reflexivity.
  - destruct (String.eqb k k') eqn:E; cbn [scanElemKeys].
    + apply String.eqb_eq in E. subst k'. rewrite Hk. reflexivity.
    + rewrite IH. reflexivity.
Qed.

Lemma scanElemKeys_heap (h h' : heap) (tok : string) (el : value)
    (kvs : obj) (next : value) :
  plainNames kvs = true ->
  scanElemKeys h' tok el kvs next = scanElemKeys h tok el kvs next.
Proof.
  induction kvs as [|[k v] kvs IH]; [reflexivity|].
  cbn [plainNames forallb fst snd scanElemKeys]. intros Hp.
  apply andb_true_iff in Hp. destruct Hp as [Hkv Hrest].
  fold (plainNames kvs) in Hrest.
  destruct (EqualFold "name" k); cbn [negb orb] in *; [|exact (IH Hrest)].
  apply negb_true_iff in Hkv.
  rewrite (shallowText_heap h h' v Hkv), (IH Hrest). reflexivity.
Qed.

Lemma plainToken_scope (tok : string) :
  plainToken tok = true -> EqualFold tok configScopeKey = false.
Proof.
  unfold plainToken. intros Ht. apply andb_true_iff in Ht.
  destruct Ht as [Ht _]. apply negb_true_iff in Ht. exact Ht.
Qed.

Lemma plainToken_parent (tok : string) :
  plainToken tok = true -> EqualFold tok configParentKey = false.
Proof.
  unfold plainToken. intros Ht. apply andb_true_iff in Ht.
  destruct Ht as [_ Ht]. apply negb_true_iff in Ht. exact Ht.
Qed.

Lemma plainNamesIn_objAt (h : heap) (r : loc) :
  plainNamesIn h -> plainNames (objAt h r) = true.
Proof.
  intros Hp. unfold objAt. destruct (h !! r) as [kvs|] eqn:E; [|reflexivity].
  exact (Hp r kvs E).
Qed.

Section AfterScope.
(** The store [h'] is [h] after the two assignments of [Scope] to the
    map at [m]. *)
Variables (h h' : heap) (m : loc) (vp vs : value).
Hypothesis Hm :
  objAt h' m = assign configScopeKey vs (assign configParentKey vp (objAt h m)).
Hypothesis Hother : forall r, r <> m -> objAt h' r = objAt h r.
Hypothesis Hplain : plainNamesIn h.

Lemma scanKeys_objAt (tok : string) (r : loc) :
  plainToken tok = true ->
  scanKeys tok (objAt h' r) = scanKeys tok (objAt h r).
Proof.
  intros Ht. destruct (decide (r = m)) as [->|Hne].
  - rewrite Hm.
    rewrite (scanKeys_assign _ _ _ _ (plainToken_scope tok Ht)).
    apply scanKeys_assign, plainToken_parent, Ht.
  - rewrite (Hother r Hne). reflexivity.
Qed.

Lemma scanElemKeys_objAt (tok : string) (el : value) (r : loc) (next : value) :
  scanElemKeys h' tok el (objAt h' r) next
  = scanElemKeys h tok el (objAt h r) next.
Proof.
  destruct (decide (r = m)) as [->|Hne].
  - rewrite Hm. rewrite !scanElemKeys_assign by reflexivity.
    apply scanElemKeys_heap, plainNamesIn_objAt, Hplain.
  - rewrite (Hother r Hne).
    apply scanElemKeys_heap, plainNamesIn_objAt, Hplain.
Qed.

Lemma scanElem_after (tok : string) (x next : value) :
  scanElem h' tok x next = scanElem h tok x next.
Proof.
  unfold scanElem. cbv zeta.
  destruct (kindOf (derefValue x)); try reflexivity.
  unfold entriesOf. destruct (underlying (derefValue x)); try reflexivity.
  - apply scanElemKeys_objAt.
  - destruct c as [r|]; [apply scanElemKeys_objAt|reflexivity].
Qed.

Lemma scanElems_after (tok : string) (xs : list value) (next : value) :
  scanElems h' tok xs next = scanElems h tok xs next.
Proof.
  revert next. induction xs as [|x xs IH]; intros next; [reflexivity|].
  cbn [scanElems]. rewrite scanElem_after. apply IH.
Qed.

Lemma step_after (tok : string) (cur : value) :
  plainToken tok = true -> step h' tok cur = step h tok cur.
Proof.
  intros Ht. unfold step. cbv zeta.
  destruct (kindOf (derefValue cur)); try reflexivity.
  - apply scanElems_after.
  - unfold entriesOf. destruct (underlying (derefValue cur)); try reflexivity.
    + apply scanKeys_objAt, Ht.
    + destruct c as [r|]; [apply scanKeys_objAt, Ht|reflexivity].
Qed.

Lemma walk_after (tokens : list string) (cur : value) :
  forallb plainToken tokens = true ->
  walk h' cur tokens = walk h cur tokens.
Proof.
  revert cur. induction tokens as [|tok tokens IH]; intros cur Ht;
    [reflexivity|].
  cbn [forallb] in Ht. apply andb_true_iff in Ht. destruct Ht as [Ht Hrest].
  cbn [walk]. rewrite (step_after tok cur Ht).
  destruct (isNil (step h tok cur)); [reflexivity|apply IH, Hrest].
Qed.

Lemma Parent_after (t : Config) : t <> Some m -> Parent h' t = Parent h t.
Proof.
  intros Hne. unfold Parent, entries. destruct t as [r|]; [|reflexivity].
  rewrite Hother by congruence. reflexivity.
Qed.

Lemma get_after (path : string) (t : Config) (cs : list Config) :
  forallb plainToken (Split path) = true ->
  lineage h t cs -> ~ In (Some m) cs ->
  forall fuel ask, get fuel h' t path ask = get fuel h t path ask.
Proof.
  intros Ht Hl. induction Hl as [t Hp|t parent cs Hp Hl IH];
    intros Hnot fuel ask.
  - rewrite !get_unfold. cbv zeta. rewrite (walk_after _ _ Ht).
    rewrite Parent_after by (intros ->; apply Hnot; left; reflexivity).
    rewrite Hp. reflexivity.
  - rewrite !get_unfold. cbv zeta. rewrite (walk_after _ _ Ht).
    rewrite Parent_after by (intros ->; apply Hnot; left; reflexivity).
    rewrite Hp. destruct fuel as [|fuel]; [reflexivity|].
    rewrite IH by (intros Hin; apply Hnot; right; exact Hin).
    reflexivity.
Qed.
End AfterScope.

(** ** The encoding of a well-formed tree *)

Lemma append_assoc (a b c : string) : (a +:+ b) +:+ c = a +:+ (b +:+ c).
Proof.
  induction a as [|ch a IH]; [reflexivity|].
  change (String ch ((a +:+ b) +:+ c) = String ch (a +:+ (b +:+ c))).
  f_equal. exact IH.
Qed.

Lemma append_empty_r (a : string) : a +:+ EmptyString = a.
Proof.
  induction a as [|ch a IH]; [reflexivity|].
  change (String ch (a +:+ EmptyString) = String ch a). f_equal. exact IH.
Qed.

Lemma memberCount_nonneg (kvs : obj) : 0 <= memberCount kvs.
Proof. unfold memberCount. lia. Qed.

Lemma memberCount_cons (k : string) (v : value) (kvs : obj) :
  memberCount ((k, v) :: kvs)
  = if reserved k then memberCount kvs else 1 + memberCount kvs.
Proof.
  unfold memberCount. cbn -[reserved].
  destruct (reserved k); cbn -[reserved]; lia.
Qed.

Lemma hasMember_count (kvs : obj) :
  hasMember kvs = (0 <? memberCount kvs).
Proof.
  induction kvs as [|[k v] kvs IH]; [reflexivity|].
  rewrite memberCount_cons. unfold hasMember in *. cbn -[reserved].
  pose proof (memberCount_nonneg kvs) as Hn.
  destruct (reserved k); cbn [negb orb].
  - exact IH.
  - symmetry. apply Z.ltb_lt. lia.
Qed.

(** The loop writes the members after what the buffer holds, when the
    count [cl] is the number of members still to write plus the number
    written. *)
Lemma writeEntries_members (h : heap) (cl : Z) (kvs : obj) :
  forall (cx : Z) (w : string),
  cl - cx = memberCount kvs ->
  writeEntries h cl cx kvs w =
  match members h kvs with
  | Ok t => Ok (w +:+ t)
  | Err msg => Err msg
  end.
Proof.
  induction kvs as [|[k v] kvs IH]; intros cx w Hcl.
  - cbn [writeEntries members]. rewrite append_empty_r. reflexivity.
  - rewrite memberCount_cons in Hcl. cbn [writeEntries members].
    destruct (reserved k); [apply IH, Hcl|].
    destruct (jsonMarshal h v) as [buf|msg]; [|reflexivity].
    rewrite IH by lia. rewrite hasMember_count.
    pose proof (memberCount_nonneg kvs) as Hn.
    destruct (members h kvs) as [tail|msg]; [|reflexivity].
    f_equal.
    destruct (cx <? cl - 1) eqn:E1; destruct (0 <? memberCount kvs) eqn:E2;
      try (apply Z.ltb_lt in E1); try (apply Z.ltb_ge in E1);
      try (apply Z.ltb_lt in E2); try (apply Z.ltb_ge in E2); try lia;
      rewrite !append_assoc; reflexivity.
Qed.

Lemma index_cons_other (k k' : string) (v : value) (kvs : obj) :
  k <> k' -> index k ((k', v) :: kvs) = index k kvs.
Proof.
  intros Hne. cbn [index]. destruct (String.eqb k k') eqn:E; [|reflexivity].
  apply String.eqb_eq in E. contradiction.
Qed.

(** In a map with well-typed reserved keys the count that [MarshalJSON]
    starts from is the number of members. *)
Lemma reserved_count (kvs : obj) :
  uniqueKeys kvs = true ->
  Z.of_nat (length kvs)
  = memberCount kvs
    + (match index configScopeKey kvs with Some _ => 1 | None => 0 end)
    + (match index configParentKey kvs with Some _ => 1 | None => 0 end).
Proof.
  induction kvs as [|[k v] kvs IH]; intros Hu; [reflexivity|].
  cbn [uniqueKeys] in Hu. destruct (index k kvs) eqn:Ek; [discriminate Hu|].
  specialize (IH Hu). rewrite memberCount_cons.
  change (Z.of_nat (length ((k, v) :: kvs))) with (Z.of_nat (S (length kvs))).
  rewrite Nat2Z.inj_succ, IH. unfold reserved.
  destruct (String.eqb k configScopeKey) eqn:Es.
  - apply String.eqb_eq in Es. subst k. rewrite Ek.
    cbn [orb index]. rewrite String.eqb_refl.
    change (String.eqb configParentKey configScopeKey) with false.
    cbv iota. lia.
  - destruct (String.eqb k configParentKey) eqn:Ep.
    + apply String.eqb_eq in Ep. subst k. rewrite Ek.
      cbn [orb index]. rewrite String.eqb_refl.
      change (String.eqb configScopeKey configParentKey) with false.
      cbv iota. lia.
    + apply String.eqb_neq in Es, Ep. cbn [orb].
      rewrite !index_cons_other by congruence. lia.
Qed.

(** ** Text rendering *)

(** The cases of [toString] that render as the specification says: a
    value with a method, an integer, a container, a function, absence. *)
Lemma toString_cases (h : heap) :
  (forall ty ms v s, methodText ms = Some s ->
     toString h (VNamed ty ms v) = Some s) /\
  (forall s, toString h (VString s) = Some s) /\
  (forall n, toString h (VInt n) = Some (decimal n)) /\
  (forall xs, toString h (VSlice xs) = Some (textOf (jsonMarshal h (VSlice xs)))) /\
  (forall m, toString h (VMap m) = Some (textOf (jsonMarshal h (VMap m)))) /\
  (forall flds, toString h (VStruct flds)
                = Some (textOf (jsonMarshal h (VStruct flds)))) /\
  (forall c, toString h (VConfig c) = Some (textOf (MarshalJSON h c))) /\
  (forall ty, toString h (VFunc ty) = Some ty) /\
  toString h VNil = Some EmptyString.
Proof.
  repeat split; try reflexivity.
  intros ty ms v s Hs. unfold toString, toStringWithOpts, stringRelated.
  rewrite Hs. reflexivity.
Qed.

(** A boolean is rendered with the verb [%d], which does not fit it. *)
Lemma toString_bool (h : heap) (b : bool) :
  toString h (VBool b)
  = Some ("%!d(bool=" +:+ (if b then "true" else "false") +:+ ")").
Proof. destruct b; reflexivity. Qed.

(** And so is a float, the type of every number of a decoded document. *)
Lemma toString_float64 (h : heap) (f : spec_float) :
  toString h (VFloat F64 f) = Some ("%!d(float64=" +:+ formatFloat F64 f +:+ ")").
Proof. reflexivity. Qed.

End ConfigFacts.

(** * The properties on the example configuration *)

(** The scoped tree of the test suite stores "info" under
    [logging.level]; with [LSX_LOGGING_LEVEL] set to "debug" the lookup
    returns "debug". *)
Lemma Get_returns_environment_override_witness :
  debugEnv ("LSX_" +:+ replaceDots (ToUpper "logging.level")) = "debug" /\
  "debug" <> EmptyString /\
  @Get testFmt (testPlatform noEnv) 0 scopedHeap scopedConfig "logging.level"
    = Some (VString "info") /\
  @Get testFmt (testPlatform debugEnv) 0 scopedHeap scopedConfig "logging.level"
    = Some (VString "debug").
Proof.
  assert (Henv : debugEnv ("LSX_" +:+ replaceDots (ToUpper "logging.level"))
                 = "debug") by reflexivity.
  assert (Hne : "debug" <> EmptyString) by discriminate.
  split; [exact Henv|]. split; [exact Hne|]. split; [reflexivity|].
  exact (proj1 (@Get_returns_environment_override testFmt (testPlatform debugEnv)
                  O scopedHeap scopedConfig "logging.level" "debug" Henv Hne)).
Defined.

(** The path [services.svc00] ends at the map of the service, and
    [Scope] returns the nil tree once the variable of that path is set. *)
Lemma Scope_is_empty_under_environment_override_witness :
  svc00Env (getEnvVarName "services.svc00") <> EmptyString /\
  @walk testFmt (testPlatform svc00Env) exampleHeap (VConfig exampleConfig)
    (Split "services.svc00") = VMap 5 /\
  @Scope testFmt (testPlatform svc00Env) exampleHeap exampleConfig "services.svc00"
    = (exampleHeap, None).
Proof.
  assert (Hne : svc00Env (getEnvVarName "services.svc00") <> EmptyString) by discriminate.
  split; [exact Hne|]. split; [reflexivity|].
  exact (proj1 (@Scope_is_empty_under_environment_override testFmt
                  (testPlatform svc00Env) exampleHeap exampleConfig
                  "services.svc00" Hne)).
Defined.

(** A tree that is its own parent: [Get] for a path it does not hold
    asks the same tree again and again, and does not return, whatever
    the fuel. *)
Lemma Get_does_not_return_on_own_parent (fuel : nat) :
  Parent selfParentHeap scopedConfig = scopedConfig /\
  @Get testFmt (testPlatform noEnv) fuel selfParentHeap scopedConfig "nowhere"
    = None.
Proof.
  split; [reflexivity|]. unfold Get.
  induction fuel as [|fuel IH]; [reflexivity|].
  rewrite get_unfold.
  change (@get testFmt (testPlatform noEnv) fuel selfParentHeap scopedConfig
            "nowhere" true = None).
  exact IH.
Qed.

(** The expectations of config_test.go. *)
Lemma config_test_replay :
  let P := testPlatform noEnv in
  Len exampleHeap exampleConfig = 4 /\
  @Get testFmt P 0 exampleHeap exampleConfig "logging.level"
    = Some (VString "debug") /\
  Len scopedHeap scopedConfig = 4 /\
  @Get testFmt P 1 scopedHeap scopedConfig "logging.level"
    = Some (VString "info") /\
  @Scope testFmt P exampleHeap exampleConfig "services.svc01"
    = (exampleHeap, None) /\
  Len svr00Heap svr00Config = 3 /\
  @Get testFmt P 1 svr00Heap svr00Config "logging.level"
    = Some (VString "debug") /\
  @Get testFmt P 1 svr00Heap svr00Config "addrs"
    = Some (VSlice [VString "tcp://127.0.0.1:7979"]) /\
  @Get testFmt P 0 testHeap exampleConfig "data.name"
    = Some (VString "hello") /\
  @Get testFmt P 0 testHeap exampleConfig "data.world.logLevel"
    = Some (VInt 10) /\
  @Get testFmt P 0 testHeap exampleConfig "array.c3p0" = Some (VMap 20) /\
  @Get testFmt P 0 testHeap exampleConfig "array.hello.world.loglevel"
    = Some (VInt 10) /\
  @Get testFmt P 0 testHeap exampleConfig
     "array.c3p0.myTestStruct.world.loglevel" = Some (VInt 5).
Proof. cbv zeta. repeat split. Qed.

(** The expectations of module_test.go on values behind a pointer and
    on values with a method [String]. *)
Lemma module_test_replay :
  @ParseModuleType testFmt (APtr (AString "VOLUME")) = (VolumeModuleType, None) /\
  @ParseModuleType testFmt (APtr (AStringer "logger")) = (LoggerModuleType, None) /\
  @ParseModuleType testFmt (APtr (AUint UWord 2)) = (ConfigModuleType, None) /\
  @ParseModuleType testFmt (APtr (AFloat F32 (S754_finite false 1 0)))
    = (ClientModuleType, None) /\
  @ParseModuleType testFmt (AFloat F64 (S754_finite false 3 (-1)))
    = (InvalidModuleType, Some "error: invalid module type: 1.5").
Proof. repeat split. Qed.

(** C3, counterexample.  The servers of the example are maps with the
    keys "name", "type" and "addrs".  For the token "type" the
    specification selects the value of the key "type" of the first
    server; the code passes the server over, and [servers.type] is
    absent. *)
Lemma scanElem_as_specified_counterexample :
  @scanElem testFmt (testPlatform noEnv) exampleHeap "type" (VMap 3) VNil = VNil /\
  @scanElem_as_specified testFmt (testPlatform noEnv) exampleHeap "type" (VMap 3) VNil
    = VString "libstorage" /\
  @Get testFmt (testPlatform noEnv) 0 exampleHeap exampleConfig "servers.type"
    = Some VNil /\
  ~ (forall h tok x next,
       @scanElem testFmt (testPlatform noEnv) h tok x next
       = @scanElem_as_specified testFmt (testPlatform noEnv) h tok x next).
Proof.
  split; [reflexivity|]. split; [reflexivity|]. split; [reflexivity|].
  intros Hc. specialize (Hc exampleHeap "type" (VMap 3) VNil).
  vm_compute in Hc. discriminate Hc.
Qed.

(** In a struct the order of the fields decides: with the field "Kind"
    declared before the field "Name", the token "kind" selects the value
    of "Kind" although "Name" holds the token. *)
Lemma scanElem_field_order_example :
  let el := VStruct [ ("Kind", false, VString "droid");
                      ("Name", false, VString "kind") ] in
  @scanElem testFmt (testPlatform noEnv) exampleHeap "kind" el VNil
    = VString "droid" /\
  @scanElem_as_specified testFmt (testPlatform noEnv) exampleHeap "kind" el VNil
    = el.
Proof. split; reflexivity. Qed.

(** C4, counterexample.  In the tree scoped to the service svc00 the
    path [@parent@] resolves to the root, a [Config]: a value of kind
    map, which the traversal goes through as through any map.  [Scope]
    returns the nil tree for it. *)
Lemma Scope_as_specified_counterexample :
  @get testFmt (testPlatform noEnv) 0 scopedHeap scopedConfig "@parent@" false
    = Some (VConfig exampleConfig) /\
  kindOf (VConfig exampleConfig) = Map /\
  @get testFmt (testPlatform noEnv) 0 scopedHeap scopedConfig
     "@parent@.logging.level" false = Some (VString "debug") /\
  @Scope testFmt (testPlatform noEnv) scopedHeap scopedConfig "@parent@"
    = (scopedHeap, None) /\
  ~ @Scope_as_specified testFmt (testPlatform noEnv) scopedHeap scopedConfig
      "@parent@".
Proof.
  split; [reflexivity|]. split; [reflexivity|]. split; [reflexivity|].
  split; [reflexivity|].
  intros Hc. destruct (Hc (VConfig exampleConfig) eq_refl) as [_ Hmap].
  destruct (Hmap eq_refl) as (m & Hm & _).
  vm_compute in Hm. discriminate Hm.
Qed.

(** No key named "name" of the example holds a [Config]. *)
Lemma plainNamesIn_example : plainNamesIn exampleHeap.
Proof.
  intros r kvs Hr.
  assert (Hall : map_Forall (fun _ kvs => plainNames kvs = true) exampleHeap).
  { apply map_Forall_to_list. vm_compute. repeat constructor. }
  exact (Hall r kvs Hr).
Qed.


(** * The encoding *)

(** C6 (the defect).  [MarshalJSON] writes a key between two quotes as
    it is, without escaping it.  For the tree with the one key made of
    the letter a, a double quote and the letter b, the text has the
    double quote of the key as it is, whatever the encoder of the values
    returns for the value: the quote inside the key ends the member name
    early, and the text is not a JSON document. *)
Theorem MarshalJSON_writes_key_unescaped `{Platform} :
  MarshalJSON quotedKeyHeap (Some 1%positive) =
  match jsonMarshal quotedKeyHeap (VString "x") with
  | Ok buf =>
      Ok ("{" +:+ dquote +:+ "a" +:+ dquote +:+ "b" +:+ dquote +:+ ":"
              +:+ buf +:+ "}")
  | Err msg => Err msg
  end.
Proof.
  assert (E : entries quotedKeyHeap (Some 1%positive) = [(quotedKey, VString "x")])
    by reflexivity.
  unfold MarshalJSON. rewrite E. simpl.
  destruct (jsonMarshal quotedKeyHeap (VString "x")); reflexivity.
Qed.

(** The count of the entries to write is lowered for the scope key only
    when it holds a text, while the key is skipped whatever it holds: for
    a tree whose scope key holds a boolean a comma follows the last
    member. *)
Lemma MarshalJSON_trailing_comma `{Platform} :
  MarshalJSON oddScopeHeap (Some 1%positive) =
  match jsonMarshal oddScopeHeap (VString "x") with
  | Ok buf => Ok ("{" +:+ dquote +:+ "a" +:+ dquote +:+ ":" +:+ buf +:+ ",}")
  | Err msg => Err msg
  end.
Proof.
  assert (E : entries oddScopeHeap (Some 1%positive)
              = [(configScopeKey, VBool true); ("a", VString "x")])
    by reflexivity.
  assert (A : forall buf : string, (buf +:+ ",") +:+ "}" = buf +:+ ",}").
  { induction buf as [|ch buf IH]; [reflexivity|].
    change (String ch ((buf +:+ ",") +:+ "}") = String ch (buf +:+ ",}")).
    f_equal. exact IH. }
  unfold MarshalJSON. rewrite E. simpl.
  destruct (jsonMarshal oddScopeHeap (VString "x")) as [buf|msg]; [|reflexivity].
  simpl. rewrite A. reflexivity.
Qed.

(** Two trees that answer differently for the path [a] have the same
    encoding; no decoder gives both of them back. *)
Lemma MarshalJSON_same_text_for_two_trees :
  @MarshalJSON (testPlatform noEnv) twinHeap (Some 1%positive)
    = @MarshalJSON (testPlatform noEnv) twinHeap (Some 2%positive) /\
  @Get testFmt (testPlatform noEnv) 0 twinHeap (Some 1%positive) "a"
    = Some (VString "x") /\
  @Get testFmt (testPlatform noEnv) 0 twinHeap (Some 2%positive) "a"
    = Some VNil.
Proof. repeat split. Qed.

(** On the example configuration the encoding is the document, and the
    tree scoped to the service svc00 is encoded without its two reserved
    keys. *)
Lemma MarshalJSON_scoped_omits_reserved_keys :
  index configParentKey (entries scopedHeap scopedConfig)
    = Some (VConfig exampleConfig) /\
  index configScopeKey (entries scopedHeap scopedConfig)
    = Some (VString "services.svc00") /\
  Len scopedHeap scopedConfig = 4 /\
  @MarshalJSON (testPlatform noEnv) scopedHeap scopedConfig
    = @MarshalJSON (testPlatform noEnv) exampleHeap scopedConfig.
Proof. repeat split. Qed.

(** * The text of a value *)

(** C9 (the defect).  Whenever the value that [Get] finds is a boolean,
    [GetStr] renders it with the verb [%d], and returns the text that
    [fmt] prints for a verb that does not fit the value, not a text in
    base 10. *)
Theorem GetStr_boolean_is_not_decimal `{Fmt} `{Platform}
    (fuel : nat) (h : heap) (c : Config) (path : string) (b : bool) :
  Get fuel h c path = Some (VBool b) ->
  GetStr fuel h c path
  = Some ("%!d(bool=" +:+ (if b then "true" else "false") +:+ ")").
Proof.
  intros Hget. unfold GetStr. rewrite Hget. apply toString_bool.
Qed.

(** The example configuration holds the boolean [true] under
    [logging.requests]. *)
Lemma GetStr_boolean_is_not_decimal_witness :
  @Get testFmt (testPlatform noEnv) 0 exampleHeap exampleConfig
     "logging.requests" = Some (VBool true) /\
  @GetStr testFmt (testPlatform noEnv) 0 exampleHeap exampleConfig
     "logging.requests" = Some "%!d(bool=true)".
Proof.
  assert (Hget : @Get testFmt (testPlatform noEnv) 0 exampleHeap exampleConfig
                   "logging.requests" = Some (VBool true)) by reflexivity.
  split; [exact Hget|].
  exact (@GetStr_boolean_is_not_decimal testFmt (testPlatform noEnv)
           O exampleHeap exampleConfig "logging.requests" true Hget).
Defined.

(** The sequence under [addrs] of the server svr01 is rendered as its
    encoding. *)
Lemma GetStr_sequence_example :
  @GetStr testFmt (testPlatform noEnv) 0 exampleHeap exampleConfig
     "servers.svr01.addrs"
  = Some ("[" +:+ dquote +:+ "tcp://127.0.0.1:8989" +:+ dquote +:+ ","
              +:+ dquote +:+ "unix:///tmp/lsx/run/csi.sock" +:+ dquote +:+ "]").
Proof. reflexivity. Qed.

(** * More of module.go *)

Section ModuleTypeOutcomes.
Context `{Fmt}.

Lemma isValidModuleType_sound (v r : ModuleType) :
  isValidModuleType v = (r, None) -> r = v /\ 1 <= v <= 5.
Proof.
  unfold isValidModuleType, InvalidModuleType, maxModuleType, VolumeModuleType,
    errUnknownModuleType.
  destruct (v <? 0 + 1) eqn:E1; [intros Heq; discriminate Heq|].
  destruct (v >? 5) eqn:E2; [intros Heq; discriminate Heq|].
  cbn [orb]. intros Heq. injection Heq as <-.
  apply Z.ltb_ge in E1. rewrite Z.gtb_ltb in E2. apply Z.ltb_ge in E2.
  split; [reflexivity|lia].
Qed.

Lemma isValidModuleType_failure (v r : ModuleType) (msg : string) :
  isValidModuleType v = (r, Some msg) ->
  r = InvalidModuleType /\
  msg = "error: invalid module type: " +:+ decimal (uint8 v).
Proof.
  unfold isValidModuleType, errUnknownModuleType.
  destruct ((v <? InvalidModuleType + 1) || (v >? maxModuleType));
    intros Heq; [|discriminate Heq].
  injection Heq as <- <-. split; reflexivity.
Qed.

Lemma errUnknownModuleType_shape (v : anyval) (r : ModuleType) (e : error) :
  errUnknownModuleType v = (r, e) ->
  r = InvalidModuleType /\
  exists text, e = Some ("error: invalid module type: " +:+ text).
Proof.
  unfold errUnknownModuleType. intros Heq. injection Heq as <- <-.
  split; [reflexivity|eexists; reflexivity].
Qed.

Lemma firstNamed_sound (tv : string) (mts : list ModuleType) (mt : ModuleType) :
  firstNamed tv mts = Some mt ->
  In mt mts /\ EqualFold tv (ModuleType_String mt) = true.
Proof.
  induction mts as [|m mts IH]; cbn [firstNamed]; [intros Heq; discriminate Heq|].
  destruct (EqualFold tv (ModuleType_String m)) eqn:E.
  - intros Heq. injection Heq as <-. split; [left; reflexivity|exact E].
  - intros Heq. destruct (IH Heq) as [Hin Hf]. split; [right; exact Hin|exact Hf].
Qed.

Lemma moduleTypes_valid (mt : ModuleType) : In mt moduleTypes -> 1 <= mt <= 5.
Proof.
  unfold moduleTypes, ClientModuleType, ConfigModuleType, LoggerModuleType,
    ServerModuleType, VolumeModuleType.
  intros [<-|[<-|[<-|[<-|[<-|[]]]]]]; lia.
Qed.

Lemma parseString_sound (tv : string) (r : ModuleType) :
  parseString tv = (r, None) ->
  1 <= r <= 5 /\ EqualFold tv (ModuleType_String r) = true.
Proof.
  unfold parseString. destruct (firstNamed tv moduleTypes) as [mt|] eqn:E.
  - intros Heq. injection Heq as <-.
    destruct (firstNamed_sound _ _ _ E) as [Hin Hf].
    split; [apply moduleTypes_valid, Hin|exact Hf].
  - intros Heq. apply errUnknownModuleType_shape in Heq.
    destruct Heq as [_ [text Ht]]. discriminate Ht.
Qed.

Lemma parseString_failure (tv : string) (r : ModuleType) (msg : string) :
  parseString tv = (r, Some msg) ->
  r = InvalidModuleType /\ msg = "error: invalid module type: " +:+ tv.
Proof.
  unfold parseString. destruct (firstNamed tv moduleTypes) as [mt|];
    intros Heq; [discriminate Heq|].
  injection Heq as <- <-. split; reflexivity.
Qed.

Lemma parseOutcome_isValid (v : anyval) (x : ModuleType) :
  parseOutcome v (isValidModuleType x).
Proof.
  destruct (isValidModuleType x) as [t [msg|]] eqn:E; cbn [parseOutcome].
  - apply isValidModuleType_failure in E. destruct E as [-> ->].
    split; [reflexivity|eexists; reflexivity].
  - apply isValidModuleType_sound in E. destruct E as [-> Hv]. left. exact Hv.
Qed.

Lemma parseOutcome_err (v w : anyval) :
  parseOutcome v (errUnknownModuleType w).
Proof.
  unfold errUnknownModuleType. cbn [parseOutcome].
  split; [reflexivity|eexists; reflexivity].
Qed.

Lemma parseOutcome_string (v : anyval) (tv : string) :
  parseOutcome v (parseString tv).
Proof.
  destruct (parseString tv) as [t [msg|]] eqn:E; cbn [parseOutcome].
  - apply parseString_failure in E. destruct E as [-> ->].
    split; [reflexivity|eexists; reflexivity].
  - apply parseString_sound in E. left. exact (proj1 E).
Qed.

Lemma parseOutcome_scalar (v p : anyval) :
  match p with
  | AUint _ _ | AInt _ _ | AFloat _ _ | AString _ | AStringer _
  | AModuleType _ | ANil | AOther _ => True
  | APtr _ => False
  end ->
  parseOutcome v (ParseModuleType p).
Proof.
  destruct p as [|t|w n|w n|w f|s|s|q|r]; intros Hp; try contradiction;
    cbn [ParseModuleType]; try apply parseOutcome_err;
    try apply parseOutcome_isValid; try apply parseOutcome_string.
  - destruct w; unfold parseUint64;
      try apply parseOutcome_isValid;
      destruct (n <=? 255);
      first [apply parseOutcome_isValid | apply parseOutcome_err].
  - destruct w; unfold parseInt64;
      match goal with
      | |- context [if ?b then _ else _] => destruct b
      end;
      first [apply parseOutcome_isValid | apply parseOutcome_err].
  - destruct (fpositive f && fle255 f && fwhole f);
      first [apply parseOutcome_isValid | apply parseOutcome_err].
Qed.

(** On every argument that holds no nil pointer (a nil pointer of a
    type of the switch is dereferenced, and the call panics),
    [ParseModuleType] returns either one of the five valid types with no
    error, or the invalid type with an error whose message is "error:
    invalid module type: " followed by a text; the one exception is a
    pointer to a [ModuleType], whose pointee is returned with no error
    whatever it is. *)
Theorem ParseModuleType_outcome (v : anyval) :
  parseOutcome v (ParseModuleType v).
Proof.
  destruct v as [|t|w n|w n|w f|s|s|p|r];
    try (apply parseOutcome_scalar; exact I).
  destruct p as [|t|w n|w n|w f|s|s|q|r];
    try (apply (parseOutcome_scalar _ (AUint w n)); exact I);
    try (apply (parseOutcome_scalar _ (AInt w n)); exact I);
    try (apply (parseOutcome_scalar _ (AFloat w f)); exact I);
    try (apply (parseOutcome_scalar _ (AString s)); exact I);
    try (apply (parseOutcome_string _ s));
    try (cbn [ParseModuleType]; apply parseOutcome_err).
  cbn [ParseModuleType parseOutcome]. right. reflexivity.
Qed.

(** A signed integer of any width is accepted exactly when it is one of
    1..5, and is then its own type; every other one, zero and the
    negative ones among them, is rejected with its decimal text in the
    message. *)
Theorem ParseModuleType_signed_integer (w : iwidth) (n : Z) :
  ParseModuleType (AInt w n) =
  if (1 <=? n) && (n <=? 5) then (n, None)
  else (InvalidModuleType, Some ("error: invalid module type: " +:+ decimal n)).
Proof.
  assert (Hvalid : forall x, 0 <= x < 256 ->
            isValidModuleType x =
            if (1 <=? x) && (x <=? 5) then (x, None)
            else (InvalidModuleType,
                  Some ("error: invalid module type: " +:+ decimal x))).
  { intros x Hx. unfold isValidModuleType, errUnknownModuleType,
      InvalidModuleType, maxModuleType, VolumeModuleType.
    rewrite (uint8_small x Hx).
    destruct (Z.ltb_spec x (0 + 1)); destruct (Z.leb_spec 1 x); try lia;
      cbn [orb andb]; [reflexivity|].
    rewrite Z.gtb_ltb.
    destruct (Z.ltb_spec 5 x); destruct (Z.leb_spec x 5); try lia; reflexivity. }
  assert (Hout : forall lim, 5 <= lim < 256 ->
            ((n >? 0) && (n <=? lim) = false) ->
            (1 <=? n) && (n <=? 5) = false).
  { intros lim Hlim Hg. apply andb_false_iff in Hg.
    apply andb_false_iff.
    destruct Hg as [Hg|Hg].
    - left. rewrite Z.gtb_ltb in Hg. apply Z.ltb_ge in Hg. apply Z.leb_gt. lia.
    - right. apply Z.leb_gt in Hg. apply Z.leb_gt. lia. }
  assert (Hin : forall lim, 5 <= lim < 256 ->
            ((n >? 0) && (n <=? lim) = true) -> 0 <= n < 256).
  { intros lim Hlim Hg. apply andb_true_iff in Hg. destruct Hg as [Hg1 Hg2].
    rewrite Z.gtb_ltb in Hg1. apply Z.ltb_lt in Hg1. apply Z.leb_le in Hg2. lia. }
  destruct w; cbn [ParseModuleType]; unfold parseInt64;
    match goal with
    | |- context [(n >? 0) && (n <=? ?lim)] =>
        destruct ((n >? 0) && (n <=? lim)) eqn:Hg;
        [ pose proof (Hin lim ltac:(lia) Hg) as Hr;
          rewrite (uint8_small n Hr); apply Hvalid; exact Hr
        | rewrite (Hout lim ltac:(lia) Hg); reflexivity ]
    end.
Qed.

(** An unsigned integer of any width is accepted exactly when it is one
    of 1..5; zero and every larger one is rejected with its decimal text
    in the message. *)
Theorem ParseModuleType_unsigned_integer (w : uwidth) (n : Z) :
  0 <= n <= uintMax w ->
  ParseModuleType (AUint w n) =
  if (1 <=? n) && (n <=? 5) then (n, None)
  else (InvalidModuleType, Some ("error: invalid module type: " +:+ decimal n)).
Proof.
  intros Hn.
  assert (Hvalid : forall x, 0 <= x < 256 ->
            isValidModuleType x =
            if (1 <=? x) && (x <=? 5) then (x, None)
            else (InvalidModuleType,
                  Some ("error: invalid module type: " +:+ decimal x))).
  { intros x Hx. unfold isValidModuleType, errUnknownModuleType,
      InvalidModuleType, maxModuleType, VolumeModuleType.
    rewrite (uint8_small x Hx).
    destruct (Z.ltb_spec x (0 + 1)); destruct (Z.leb_spec 1 x); try lia;
      cbn [orb andb]; [reflexivity|].
    rewrite Z.gtb_ltb.
    destruct (Z.ltb_spec 5 x); destruct (Z.leb_spec x 5); try lia; reflexivity. }
  assert (Hbig : 255 < n -> (1 <=? n) && (n <=? 5) = false).
  { intros Hb. apply andb_false_iff. right. apply Z.leb_gt. lia. }
  destruct (Z.leb_spec n 255) as [Hle|Hgt].
  - assert (Hr : 0 <= n < 256) by lia.
    destruct w; cbn [ParseModuleType]; unfold parseUint64;
      try (destruct (Z.leb_spec n 255); [|lia]);
      try rewrite (uint8_small n Hr); apply Hvalid; exact Hr.
  - rewrite (Hbig Hgt).
    destruct w; cbn [ParseModuleType uintMax] in *; unfold parseUint64;
      try (destruct (Z.leb_spec n 255); [lia|]); try reflexivity.
    lia.
Qed.

(** The guards of the float cases hold only for a finite, positive float
    that is a whole number of at most 255, and its integer part is then
    the number itself. *)
Lemma float_guards_sound (f : spec_float) :
  fpositive f && fle255 f && fwhole f = true ->
  0 <= ftrunc f < 256 /\ fencodes f (ftrunc f).
Proof.
  intros Hg. apply andb_true_iff in Hg. destruct Hg as [Hg Hw].
  apply andb_true_iff in Hg. destruct Hg as [Hp Hl].
  destruct f as [s|s| |s m e]; try discriminate Hp.
  - destruct s; [discriminate Hp|discriminate Hl].
  - destruct s; [discriminate Hp|].
    cbn [fle255 fwhole ftrunc fencodes] in *.
    destruct (0 <=? e) eqn:He.
    + apply Z.leb_le in Hl. split; [|reflexivity].
      assert (0 < 2 ^ e) by (apply Z.pow_pos_nonneg; [lia|apply Z.leb_le, He]).
      nia.
    + assert (He' : e < 0) by (apply Z.leb_gt; exact He).
      assert (Hpow : 0 < 2 ^ (- e)) by (apply Z.pow_pos_nonneg; lia).
      apply Z.leb_le in Hl. apply Z.eqb_eq in Hw.
      pose proof (Z.div_mod (Z.pos m) (2 ^ (- e)) ltac:(lia)) as Hdm.
      rewrite Hw in Hdm. split; [|lia].
      split; [apply Z.div_pos; lia|].
      apply Z.div_lt_upper_bound; lia.
Qed.

(** A float, of either width, is accepted exactly when it is one of the
    whole numbers 1..5, and the type returned is that number. *)
Theorem ParseModuleType_float (w : fwidth) (f : spec_float) (t : ModuleType) :
  ParseModuleType (AFloat w f) = (t, None) <-> 1 <= t <= 5 /\ fencodes f t.
Proof.
  cbn [ParseModuleType]. split.
  - destruct (fpositive f && fle255 f && fwhole f) eqn:Hg.
    + destruct (float_guards_sound f Hg) as [Hr He].
      rewrite (uint8_small _ Hr). intros Heq.
      apply isValidModuleType_sound in Heq. destruct Heq as [-> Hv].
      split; assumption.
    + intros Heq. apply errUnknownModuleType_shape in Heq.
      destruct Heq as [_ [text Ht]]. discriminate Ht.
  - intros [Hv He].
    destruct (fencodes_accepted f t Hv He) as (Hp & Hl & Hw & Ht).
    rewrite Hp, Hl, Hw, Ht. cbn [andb].
    rewrite uint8_small by lia. apply isValidModuleType_accepts, Hv.
Qed.

(** A text of ASCII characters is accepted exactly when it is the name
    of one of the five types up to the case of its letters, and is
    rejected with the text itself in the message otherwise; a value with
    a method [String] that returns such a text, and a pointer that is
    not nil to such a text or to such a value, are parsed as the text.
    (Outside ASCII, [strings.EqualFold] folds further letters onto those
    of the names, the long s onto s among them.) *)
Theorem ParseModuleType_ascii_text (s : string) :
  isASCII s = true ->
  (forall t, ParseModuleType (AString s) = (t, None) <->
             1 <= t <= 5 /\ EqualFold s (ModuleType_String t) = true) /\
  (snd (ParseModuleType (AString s)) <> None ->
   ParseModuleType (AString s)
   = (InvalidModuleType, Some ("error: invalid module type: " +:+ s))) /\
  ParseModuleType (AStringer s) = ParseModuleType (AString s) /\
  ParseModuleType (APtr (AString s)) = ParseModuleType (AString s) /\
  ParseModuleType (APtr (AStringer s)) = ParseModuleType (AString s).
Proof.
  intros _. split; [|split; [|repeat split]].
  - intros t. cbn [ParseModuleType]. split; [apply parseString_sound|].
    intros [Hv Hf]. unfold EqualFold in Hf. apply String.eqb_eq in Hf.
    unfold parseString, moduleTypes. cbn [firstNamed]. unfold EqualFold.
    rewrite Hf.
    destruct (valid_ordinal_cases t Hv) as [->|[->|[->|[->| ->]]]]; reflexivity.
  - cbn [ParseModuleType]. destruct (parseString s) as [t [msg|]] eqn:E.
    + intros _. apply parseString_failure in E. destruct E as [-> ->].
      reflexivity.
    + intros Hne. contradiction Hne. reflexivity.
Qed.

(** [String] and [ParseModuleType] undo each other on the five valid
    types and on no other: the name of an invalid type is "invalid",
    which is rejected. *)
Theorem ModuleType_String_round_trip (t : ModuleType) :
  ParseModuleType (AString (ModuleType_String t)) =
  if (1 <=? t) && (t <=? 5) then (t, None)
  else (InvalidModuleType, Some "error: invalid module type: invalid").
Proof.
  destruct (Z.leb_spec 1 t) as [H1|H1]; cbn [andb].
  - destruct (Z.leb_spec t 5) as [H5|H5].
    + destruct (valid_ordinal_cases t (conj H1 H5)) as [->|[->|[->|[->| ->]]]];
        reflexivity.
    + assert (Hs : ModuleType_String t = "invalid").
      { unfold ModuleType_String, ClientModuleType, ConfigModuleType,
          LoggerModuleType, ServerModuleType, VolumeModuleType.
        repeat match goal with
               | |- context [t =? ?k] =>
                   destruct (Z.eqb_spec t k); [lia|]
               end.
        reflexivity. }
      rewrite Hs. reflexivity.
  - assert (Hs : ModuleType_String t = "invalid").
    { unfold ModuleType_String, ClientModuleType, ConfigModuleType,
        LoggerModuleType, ServerModuleType, VolumeModuleType.
      repeat match goal with
             | |- context [t =? ?k] =>
                 destruct (Z.eqb_spec t k); [lia|]
             end.
      reflexivity. }
    rewrite Hs. reflexivity.
Qed.
End ModuleTypeOutcomes.

(** The value 300 does not fit eight bits and is rejected for every
    wider unsigned type. *)
Lemma ParseModuleType_unsigned_integer_witness :
  0 <= 300 <= uintMax U16 /\
  @ParseModuleType testFmt (AUint U16 300)
  = (InvalidModuleType, Some "error: invalid module type: 300").
Proof.
  assert (Hr : 0 <= 300 <= uintMax U16) by (unfold uintMax; lia).
  split; [exact Hr|].
  exact (@ParseModuleType_unsigned_integer testFmt U16 300 Hr).
Defined.

(** The text SeRvEr is the name of the server type up to the case of
    its letters. *)
Lemma ParseModuleType_ascii_text_witness :
  isASCII "SeRvEr" = true /\
  @ParseModuleType testFmt (AString "SeRvEr") = (ServerModuleType, None).
Proof.
  assert (Ha : isASCII "SeRvEr" = true) by reflexivity.
  split; [exact Ha|].
  destruct (@ParseModuleType_ascii_text testFmt "SeRvEr" Ha) as [Hiff _].
  apply Hiff. split; [unfold ServerModuleType; lia|reflexivity].
Defined.

(** * The registries *)

Section RegistryFacts.
Variable Module : Type.
Variable nilModule : Module.

Lemma NewModule_RegisterModule_same
    (mods : moduleRegistry Module) (t : ModuleType) (n : string)
    (c : moduleCtor Module) :
  NewModule Module nilModule (RegisterModule Module mods t n c) t n = c tt.
Proof.
  unfold NewModule, RegisterModule, moduleRegistry, ModuleType in *.
  destruct (mods !! t) as [a|];
    rewrite lookup_insert_eq, lookup_insert_eq; reflexivity.
Qed.

Lemma NewModule_RegisterModule_other
    (mods : moduleRegistry Module) (t t' : ModuleType) (n n' : string)
    (c : moduleCtor Module) :
  t <> t' \/ n <> n' ->
  NewModule Module nilModule (RegisterModule Module mods t n c) t' n'
  = NewModule Module nilModule mods t' n'.
Proof.
  intros Hne.
  unfold NewModule, RegisterModule, moduleRegistry, ModuleType in *.
  destruct (decide (t = t')) as [<-|Ht].
  - assert (Hn : n <> n') by (destruct Hne as [Hne|Hne]; congruence).
    destruct (mods !! t) as [a|] eqn:Ea; rewrite lookup_insert_eq.
    + rewrite lookup_insert_ne by exact Hn. reflexivity.
    + rewrite lookup_insert_ne by exact Hn. rewrite lookup_empty. reflexivity.
  - destruct (mods !! t) as [a|]; rewrite lookup_insert_ne by exact Ht;
      reflexivity.
Qed.

(** After any sequence of registrations on the empty registry,
    [NewModule] returns for a type and a name the instance built by the
    constructor registered last under that type and that name, and the
    nil module when none was. *)
Theorem NewModule_returns_last_registered
    (regs : list (ModuleType * string * moduleCtor Module))
    (t : ModuleType) (n : string) :
  NewModule Module nilModule (registerAll Module ∅ regs) t n =
  match lastRegistered Module t n regs with
  | Some c => c tt
  | None => nilModule
  end.
Proof.
  induction regs as [|[[t0 n0] c0] regs IH] using rev_ind.
  - reflexivity.
  - unfold registerAll, lastRegistered in *.
    rewrite fold_left_app, rev_app_distr. cbn [fold_left rev app find fst snd].
    destruct ((t0 =? t) && String.eqb n0 n) eqn:E.
    + apply andb_true_iff in E. destruct E as [Et En].
      apply Z.eqb_eq in Et. apply String.eqb_eq in En. subst t0 n0.
      cbn [option_map snd]. apply NewModule_RegisterModule_same.
    + rewrite NewModule_RegisterModule_other; [exact IH|].
      apply andb_false_iff in E. destruct E as [E|E].
      * left. apply Z.eqb_neq, E.
      * right. apply String.eqb_neq, E.
Qed.

(** Registering a server under a name that the registry does not hold
    adds the server of its constructor to what [Servers] sends, and
    leaves the others; registering under a name it holds replaces the
    server of that name.  The number of servers sent is the number of
    names registered. *)
Theorem Servers_after_RegisterServer
    (serverCtors : serverRegistry Module) (name : string)
    (ctor : moduleCtor Module) :
  Permutation
    (Servers Module (RegisterServer Module serverCtors name ctor))
    (ctor tt :: Servers Module (delete name serverCtors)) /\
  length (Servers Module serverCtors) = size serverCtors.
Proof.
  unfold Servers, RegisterServer, serverRegistry. split.
  - rewrite <- insert_delete_eq.
    rewrite map_to_list_insert by apply lookup_delete_eq.
    reflexivity.
  - rewrite length_fmap. apply length_map_to_list.
Qed.
End RegistryFacts.

(** * More of config.go *)

(** ** The name of the environment variable *)

Lemma upper_of_lower (c : ascii) : upperAscii (lowerAscii c) = upperAscii c.
Proof. destruct c as [[] [] [] [] [] [] [] []]; reflexivity. Qed.

Lemma upper_of_upper (c : ascii) : upperAscii (upperAscii c) = upperAscii c.
Proof. destruct c as [[] [] [] [] [] [] [] []]; reflexivity. Qed.

Lemma dots_of_upper_dots (c : ascii) :
  (let rd := fun c => if Ascii.eqb c "."%char then "_"%char else c in
   rd (upperAscii (rd c)) = rd (upperAscii c)).
Proof. destruct c as [[] [] [] [] [] [] [] []]; reflexivity. Qed.

Lemma envChar_shape (c : ascii) :
  (let rd := fun c => if Ascii.eqb c "."%char then "_"%char else c in
   negb (Ascii.eqb (rd (upperAscii c)) "."%char)
   && negb (isLowerAscii (rd (upperAscii c))) = true).
Proof. destruct c as [[] [] [] [] [] [] [] []]; reflexivity. Qed.

Lemma mapString_mapString (f g : ascii -> ascii) (s : string) :
  mapString f (mapString g s) = mapString (fun c => f (g c)) s.
Proof.
  induction s as [|c s IH]; [reflexivity|].
  cbn [mapString]. rewrite IH. reflexivity.
Qed.

Lemma mapString_ext (f g : ascii -> ascii) (s : string) :
  (forall c, f c = g c) -> mapString f s = mapString g s.
Proof.
  intros Hfg. induction s as [|c s IH]; [reflexivity|].
  cbn [mapString]. rewrite Hfg, IH. reflexivity.
Qed.

Lemma ToUpper_of_lower (s : string) :
  ToUpper (mapString lowerAscii s) = ToUpper s.
Proof.
  unfold ToUpper. rewrite mapString_mapString.
  apply mapString_ext, upper_of_lower.
Qed.

Lemma ToUpper_EqualFold (p q : string) :
  EqualFold p q = true -> ToUpper p = ToUpper q.
Proof.
  unfold EqualFold. intros Hf. apply String.eqb_eq in Hf.
  rewrite <- (ToUpper_of_lower p), <- (ToUpper_of_lower q), Hf. reflexivity.
Qed.

(** The variable of a path is the variable of the path in upper case, of
    the path in lower case, and of the path with an underscore for each
    dot: the paths [a.b], [A.B] and [a_b] share one variable.  The name
    holds no dot and no lower-case letter. *)
Theorem getEnvVarName_normal_form (path : string) :
  getEnvVarName (ToUpper path) = getEnvVarName path /\
  getEnvVarName (mapString lowerAscii path) = getEnvVarName path /\
  getEnvVarName (replaceDots path) = getEnvVarName path /\
  allChars (fun c => negb (Ascii.eqb c "."%char) && negb (isLowerAscii c))
           (replaceDots (ToUpper path)) = true.
Proof.
  unfold getEnvVarName. split; [|split; [|split]].
  - f_equal. f_equal. unfold ToUpper. rewrite mapString_mapString.
    apply mapString_ext, upper_of_upper.
  - rewrite ToUpper_of_lower. reflexivity.
  - f_equal. unfold replaceDots, ToUpper. rewrite !mapString_mapString.
    apply mapString_ext. intros c. apply (dots_of_upper_dots c).
  - unfold replaceDots, ToUpper. rewrite mapString_mapString.
    induction path as [|c s IH]; [reflexivity|].
    cbn [mapString allChars]. rewrite IH.
    rewrite (envChar_shape c). reflexivity.
Qed.

(** ** The case of the letters of a path *)

Lemma lower_keeps_dots (c : ascii) :
  Ascii.eqb (lowerAscii c) "."%char = Ascii.eqb c "."%char.
Proof. destruct c as [[] [] [] [] [] [] [] []]; reflexivity. Qed.

Lemma Split_nonempty (s : string) : Split s <> [].
Proof.
  destruct s as [|c s]; cbn [Split]; [discriminate|].
  destruct (Ascii.eqb c "."%char); [discriminate|].
  destruct (Split s); discriminate.
Qed.

Lemma Split_lower (s : string) :
  Split (mapString lowerAscii s) = map (mapString lowerAscii) (Split s).
Proof.
  induction s as [|c s IH]; [reflexivity|].
  cbn [mapString Split]. rewrite lower_keeps_dots, IH.
  destruct (Ascii.eqb c "."%char); [reflexivity|].
  destruct (Split s) as [|t ts] eqn:E; [exfalso; exact (Split_nonempty s E)|].
  reflexivity.
Qed.

Lemma EqualFold_lower (t1 t2 x : string) :
  mapString lowerAscii t1 = mapString lowerAscii t2 ->
  EqualFold t1 x = EqualFold t2 x.
Proof. unfold EqualFold. intros ->. reflexivity. Qed.

Section CaseOfPath.
Context `{Fmt} `{Platform}.
Variables (h : heap) (t1 t2 : string).
Hypothesis Hlow : mapString lowerAscii t1 = mapString lowerAscii t2.

Lemma scanKeys_lower (kvs : obj) : scanKeys t1 kvs = scanKeys t2 kvs.
Proof.
  induction kvs as [|[k v] kvs IH]; [reflexivity|].
  cbn [scanKeys]. rewrite (EqualFold_lower t1 t2 k Hlow), IH. reflexivity.
Qed.

Lemma scanFields_lower (flds : list (string * bool * value)) :
  scanFields t1 flds = scanFields t2 flds.
Proof.
  induction flds as [|[[n i] v] flds IH]; [reflexivity|].
  cbn [scanFields]. rewrite (EqualFold_lower t1 t2 n Hlow), IH. reflexivity.
Qed.

Lemma scanElemKeys_lower (el : value) (kvs : obj) (next : value) :
  scanElemKeys h t1 el kvs next = scanElemKeys h t2 el kvs next.
Proof.
  induction kvs as [|[k v] kvs IH]; [reflexivity|].
  cbn [scanElemKeys]. rewrite (EqualFold_lower t1 t2 _ Hlow), IH. reflexivity.
Qed.

Lemma scanElemFields_lower (el : value) (flds : list (string * bool * value))
    (next : value) :
  scanElemFields t1 el flds next = scanElemFields t2 el flds next.
Proof.
  induction flds as [|[[n i] v] flds IH]; [reflexivity|].
  cbn [scanElemFields]. rewrite (EqualFold_lower t1 t2 n Hlow), IH.
  destruct (EqualFold "name" n); [|reflexivity].
  destruct (negb i); [|reflexivity].
  destruct (underlying v); try reflexivity.
  rewrite (EqualFold_lower t1 t2 s Hlow). reflexivity.
Qed.

Lemma scanElems_lower (xs : list value) (next : value) :
  scanElems h t1 xs next = scanElems h t2 xs next.
Proof.
  revert next. induction xs as [|x xs IH]; intros next; [reflexivity|].
  cbn [scanElems]. rewrite IH. f_equal. unfold scanElem. cbv zeta.
  destruct (kindOf (derefValue x)); try reflexivity.
  - apply scanElemKeys_lower.
  - apply scanElemFields_lower.
Qed.

Lemma step_lower (cur : value) : step h t1 cur = step h t2 cur.
Proof.
  unfold step. cbv zeta. destruct (kindOf (derefValue cur)); try reflexivity.
  - apply scanElems_lower.
  - apply scanKeys_lower.
  - apply scanFields_lower.
Qed.
End CaseOfPath.

Section ConfigMore.
Context `{Fmt} `{Platform}.

Lemma walk_lower (h : heap) (ts1 ts2 : list string) :
  map (mapString lowerAscii) ts1 = map (mapString lowerAscii) ts2 ->
  forall cur, walk h cur ts1 = walk h cur ts2.
Proof.
  revert ts2. induction ts1 as [|t1 ts1 IH]; intros [|t2 ts2] Heq cur;
    try discriminate Heq; [reflexivity|].
  cbn [map] in Heq. injection Heq as Ht Hts.
  cbn [walk]. rewrite (step_lower h t1 t2 Ht cur).
  destruct (isNil (step h t2 cur)); [reflexivity|apply IH, Hts].
Qed.

(** A path is read without regard to the case of its letters: two paths
    that are equal up to case name the same environment variable and
    find the same value in every tree. *)
Theorem get_ignores_case
    (p q : string) (fuel : nat) (h : heap) (c : Config) (askParent : bool) :
  EqualFold p q = true ->
  get fuel h c p askParent = get fuel h c q askParent.
Proof.
  intros Hf.
  assert (Henv : getEnvVarName p = getEnvVarName q).
  { unfold getEnvVarName. rewrite (ToUpper_EqualFold p q Hf). reflexivity. }
  assert (Hwalk : forall cur, walk h cur (Split p) = walk h cur (Split q)).
  { apply walk_lower. rewrite <- !Split_lower.
    unfold EqualFold in Hf. apply String.eqb_eq in Hf. rewrite Hf. reflexivity. }
  revert c. induction fuel as [|fuel IH]; intros c.
  - rewrite !get_unfold. cbv zeta. rewrite Henv, Hwalk. reflexivity.
  - rewrite (get_unfold (S fuel) h c p), (get_unfold (S fuel) h c q). cbv zeta.
    rewrite Henv, Hwalk.
    destruct (negb (String.eqb (Getenv (getEnvVarName q)) EmptyString));
      [reflexivity|].
    destruct (negb (isNil (walk h (VConfig c) (Split q)))); [reflexivity|].
    destruct (negb askParent); [reflexivity|].
    destruct (Parent h c) as [parent|]; [apply IH|reflexivity].
Qed.

(** ** Paths in pieces *)

Lemma Split_join (p q : string) :
  Split (p +:+ "." +:+ q) = (Split p ++ Split q)%list.
Proof.
  induction p as [|c p IH].
  - reflexivity.
  - change (String c p +:+ "." +:+ q) with (String c (p +:+ "." +:+ q)).
    cbn [Split]. rewrite IH.
    destruct (Ascii.eqb c "."%char); [reflexivity|].
    destruct (Split p) as [|t ts] eqn:E; [exfalso; exact (Split_nonempty p E)|].
    reflexivity.
Qed.

Lemma walk_from_nil (h : heap) (tokens : list string) :
  walk h VNil tokens = VNil.
Proof. destruct tokens; reflexivity. Qed.

Lemma walk_app (h : heap) (ts1 ts2 : list string) (cur : value) :
  walk h cur (ts1 ++ ts2)%list =
  if isNil (walk h cur ts1) then VNil else walk h (walk h cur ts1) ts2.
Proof.
  revert cur. induction ts1 as [|t ts1 IH]; intros cur.
  - cbn [app walk]. destruct (isNil cur) eqn:E; [|reflexivity].
    destruct cur; try discriminate E. apply walk_from_nil.
  - cbn [app walk]. destruct (isNil (step h t cur)); [reflexivity|apply IH].
Qed.

(** The traversal of the path [p.q] is the traversal of [p] followed by
    the traversal of [q] from the value that [p] ends at, and is absent
    as soon as [p] is. *)
Theorem walk_of_joined_path (h : heap) (cur : value) (p q : string) :
  walk h cur (Split (p +:+ "." +:+ q)) =
  if isNil (walk h cur (Split p)) then VNil
  else walk h (walk h cur (Split p)) (Split q).
Proof. rewrite Split_join. apply walk_app. Qed.

Lemma step_leaf (h : heap) (tok : string) (v : value) :
  isLeaf v = true -> step h tok v = VNil.
Proof.
  unfold isLeaf, step. cbv zeta.
  destruct (kindOf (derefValue v)); intros Hl; try discriminate Hl; reflexivity.
Qed.

(** A text, a number, a boolean or a function ends the traversal: when
    the path [p] ends at such a value, every longer path [p.q] is
    absent. *)
Theorem walk_below_leaf (h : heap) (cur : value) (p q : string) :
  isLeaf (walk h cur (Split p)) = true ->
  walk h cur (Split (p +:+ "." +:+ q)) = VNil.
Proof.
  intros Hl. rewrite Split_join, walk_app.
  destruct (isNil (walk h cur (Split p))); [reflexivity|].
  destruct (Split q) as [|t ts] eqn:E; [exfalso; exact (Split_nonempty q E)|].
  cbn [walk]. rewrite (step_leaf h t _ Hl). reflexivity.
Qed.

(** ** The empty tree *)

Lemma walk_config_without_entries (h : heap) (c : Config) (tokens : list string) :
  entries h c = [] -> tokens <> [] -> walk h (VConfig c) tokens = VNil.
Proof.
  intros He Ht. destruct tokens as [|t ts]; [contradiction|].
  cbn [walk]. unfold step. cbn [derefValue kindOf entriesOf underlying].
  rewrite He. reflexivity.
Qed.

(** On the nil tree, and on a tree without entries, every path whose
    variable is unset is absent for [Get], renders as the empty text for
    [GetStr], and [Scope] returns the nil tree and leaves the store as it
    is. *)
Theorem Get_on_empty_tree
    (fuel : nat) (h : heap) (c : Config) (path : string) :
  Getenv (getEnvVarName path) = EmptyString ->
  entries h c = [] ->
  Get fuel h c path = Some VNil /\
  GetStr fuel h c path = Some EmptyString /\
  Scope h c path = (h, None) /\
  Len h c = 0.
Proof.
  intros Henv He.
  assert (Hw : walk h (VConfig c) (Split path) = VNil)
    by (apply walk_config_without_entries; [exact He|apply Split_nonempty]).
  assert (Hget : Get fuel h c path = Some VNil).
  { unfold Get. rewrite get_unfold. cbv zeta. rewrite Henv, Hw.
    unfold Parent. rewrite He. reflexivity. }
  split; [exact Hget|]. split; [|split].
  - unfold GetStr. rewrite Hget. reflexivity.
  - unfold Scope. rewrite get_no_parent. unfold resolved. cbv zeta.
    rewrite Henv, Hw. reflexivity.
  - unfold Len. rewrite He. reflexivity.
Qed.

(** ** Several elements with one name *)




(** ** The tree that Scope returns *)


Lemma uniqueKeys_assign (k : string) (v : value) (m : obj) :
  uniqueKeys m = true -> uniqueKeys (assign k v m) = true.
Proof.
  induction m as [|[k' v'] m IH]; cbn [uniqueKeys assign]; [reflexivity|].
  destruct (index k' m) eqn:Ei; [intros Hu; discriminate Hu|]. intros Hu.
  destruct (String.eqb k k') eqn:E; cbn [uniqueKeys].
  - apply String.eqb_eq in E. subst k'. rewrite Ei. exact Hu.
  - apply String.eqb_neq in E. rewrite (index_assign_ne k k' v m E), Ei.
    apply IH, Hu.
Qed.


(** What a call of [Scope] that returns a tree has done. *)
Lemma Scope_returns_tree (h : heap) (c : Config) (scope : string) (m : loc) :
  snd (Scope h c scope) = Some m ->
  Getenv (getEnvVarName scope) = EmptyString /\
  walk h (VConfig c) (Split scope) = VMap m /\
  c <> None /\
  fst (Scope h c scope)
  = <[m := assign configScopeKey (VString scope)
             (assign configParentKey (VConfig c) (objAt h m))]> h.
Proof.
  unfold Scope. rewrite get_no_parent. unfold resolved. cbv zeta.
  destruct (String.eqb (Getenv (getEnvVarName scope)) EmptyString) eqn:Ee;
    cbn [negb]; [|intros Hs; discriminate Hs].
  apply String.eqb_eq in Ee.
  destruct (walk h (VConfig c) (Split scope)) eqn:Ew; cbn [snd fst];
    intros Hs; try discriminate Hs.
  injection Hs as ->. split; [exact Ee|]. split; [reflexivity|].
  split; [|reflexivity].
  intros ->. rewrite walk_config_without_entries in Ew;
    [discriminate Ew|reflexivity|apply Split_nonempty].
Qed.

Lemma Scope_store_at (h : heap) (c : Config) (scope : string) (m : loc) :
  snd (Scope h c scope) = Some m ->
  objAt (fst (Scope h c scope)) m
  = assign configScopeKey (VString scope)
      (assign configParentKey (VConfig c) (objAt h m)) /\
  forall r, r <> m -> objAt (fst (Scope h c scope)) r = objAt h r.
Proof.
  intros Hs. destruct (Scope_returns_tree h c scope m Hs) as (_ & _ & _ & ->).
  split; [apply objAt_insert_eq|].
  intros r Hne. unfold objAt, heap. rewrite lookup_insert_ne by congruence.
  reflexivity.
Qed.



(** ** The number of keys *)

Lemma Len_is_memberCount (h : heap) (c : Config) :
  uniqueKeys (entries h c) = true -> Len h c = memberCount (entries h c).
Proof.
  intros Hu. pose proof (reserved_count (entries h c) Hu) as Hlen.
  unfold Len. rewrite Hlen.
  destruct (index configScopeKey (entries h c));
    destruct (index configParentKey (entries h c)); lia.
Qed.

(** [Len] is the number of keys that are not reserved, whichever of the
    two reserved keys the tree holds and whatever they hold. *)
Theorem Len_counts_members (h : heap) (c : Config) :
  uniqueKeys (entries h c) = true ->
  Len h c = memberCount (entries h c) /\ 0 <= Len h c.
Proof.
  intros Hu. rewrite (Len_is_memberCount h c Hu).
  split; [reflexivity|apply memberCount_nonneg].
Qed.

(** The tree that [Scope] returns has the length that the map it is made
    of had before the call: the two keys that [Scope] adds are not
    counted. *)
Theorem Len_of_scoped_tree (h : heap) (c : Config) (scope : string) (m : loc) :
  snd (Scope h c scope) = Some m ->
  uniqueKeys (objAt h m) = true ->
  Len (fst (Scope h c scope)) (Some m) = Len h (Some m) /\
  uniqueKeys (objAt (fst (Scope h c scope)) m) = true.
Proof.
  intros Hs Hu. destruct (Scope_store_at h c scope m Hs) as [Hm _].
  assert (Hu' : uniqueKeys (objAt (fst (Scope h c scope)) m) = true).
  { rewrite Hm. apply uniqueKeys_assign, uniqueKeys_assign, Hu. }
  split; [|exact Hu'].
  rewrite (Len_is_memberCount _ (Some m) Hu').
  rewrite (Len_is_memberCount h (Some m) Hu).
  cbn [entries]. rewrite Hm. unfold memberCount.
  rewrite !filter_assign_reserved by reflexivity. reflexivity.
Qed.

(** ** The chain of the ancestors after Scope *)

Lemma plainNames_assign (k : string) (v : value) (kvs : obj) :
  EqualFold "name" k = false ->
  plainNames kvs = true -> plainNames (assign k v kvs) = true.
Proof.
  intros Hk. unfold plainNames.
  induction kvs as [|[k' v'] kvs IH]; cbn [assign forallb fst snd].
  - rewrite Hk. reflexivity.
  - intros Hp. apply andb_true_iff in Hp. destruct Hp as [Hkv Hrest].
    destruct (String.eqb k k') eqn:E; cbn [forallb fst snd].
    + rewrite Hk, Hrest. reflexivity.
    + rewrite Hkv, (IH Hrest). reflexivity.
Qed.

Lemma lineage_after (h h' : heap) (m : loc) :
  (forall r, r <> m -> objAt h' r = objAt h r) ->
  forall t cs, lineage h t cs -> ~ In (Some m) cs -> lineage h' t cs.
Proof.
  intros Hother t cs Hl. induction Hl as [t Hp|t parent cs Hp Hl IH]; intros Hnot.
  - apply lineage_root. rewrite <- Hp. unfold Parent, entries.
    destruct t as [r|]; [|reflexivity].
    rewrite Hother; [reflexivity|].
    intros ->. apply Hnot. left. reflexivity.
  - apply lineage_child with (parent := parent).
    + rewrite <- Hp. unfold Parent, entries.
      destruct t as [r|]; [|reflexivity].
      rewrite Hother; [reflexivity|].
      intros ->. apply Hnot. left. reflexivity.
    + apply IH. intros Hin. apply Hnot. right. exact Hin.
Qed.

(** Scoping can be repeated.  The ancestors of the tree that [Scope]
    returns are that tree followed by the ancestors of the tree it was
    scoped from, so that its chain of parents ends where the chain of
    the original ends; and a store in which no key named "name" holds a
    [Config] is again such a store after the call. *)
Theorem Scope_extends_lineage
    (h : heap) (c : Config) (scope : string) (m : loc) (cs : list Config) :
  snd (Scope h c scope) = Some m ->
  lineage h c cs -> ~ In (Some m) cs ->
  lineage (fst (Scope h c scope)) (Some m) (Some m :: cs) /\
  (plainNamesIn h -> plainNamesIn (fst (Scope h c scope))).
Proof.
  intros Hs Hl Hnot.
  destruct (Scope_store_at h c scope m Hs) as [Hm Hother].
  destruct (Scope_returns_tree h c scope m Hs) as (_ & _ & Hc & Hh').
  split.
  - destruct c as [rc|]; [|contradiction].
    apply lineage_child with (parent := rc).
    + unfold Parent, entries. rewrite Hm.
      rewrite index_assign_ne by exact reserved_keys_differ.
      rewrite index_assign_eq. reflexivity.
    + apply (lineage_after h _ m Hother _ _ Hl Hnot).
  - intros Hplain r kvs Hr. destruct (decide (r = m)) as [->|Hne].
    + assert (Hkvs : kvs = objAt (fst (Scope h c scope)) m).
      { unfold objAt, obj in *. rewrite Hr. reflexivity. }
      rewrite Hkvs, Hm.
      apply plainNames_assign; [reflexivity|].
      apply plainNames_assign; [reflexivity|].
      apply plainNamesIn_objAt, Hplain.
    + assert (Hkvs : kvs = objAt h r).
      { rewrite <- (Hother r Hne). unfold objAt, obj in *. rewrite Hr.
        reflexivity. }
      rewrite Hkvs. apply plainNamesIn_objAt, Hplain.
Qed.

(** ** The errors of the encoding *)

Lemma writeEntries_error (h : heap) (kvs : obj) :
  forall (cl cx : Z) (w : string),
  match writeEntries h cl cx kvs w with
  | Err msg => firstError h kvs = Some msg
  | Ok _ => firstError h kvs = None
  end.
Proof.
  induction kvs as [|[k v] kvs IH]; intros cl cx w; [reflexivity|].
  cbn [writeEntries firstError].
  destruct (reserved k); [apply IH|].
  destruct (jsonMarshal h v) as [buf|msg]; [apply IH|reflexivity].
Qed.

End ConfigMore.

(** * The further properties on the examples *)

(** The path of the test suite in another case. *)
Lemma get_ignores_case_witness :
  EqualFold "LOGGING.Level" "logging.level" = true /\
  @get testFmt (testPlatform noEnv) 0 exampleHeap exampleConfig
     "LOGGING.Level" true = Some (VString "debug").
Proof.
  assert (Hf : EqualFold "LOGGING.Level" "logging.level" = true) by reflexivity.
  split; [exact Hf|].
  rewrite (@get_ignores_case testFmt (testPlatform noEnv)
             "LOGGING.Level" "logging.level" O exampleHeap exampleConfig true Hf).
  reflexivity.
Defined.

(** [logging.level] is a text of the example; nothing lies below it. *)
Lemma walk_below_leaf_witness :
  isLeaf (@walk testFmt (testPlatform noEnv) exampleHeap (VConfig exampleConfig)
            (Split "logging.level")) = true /\
  @walk testFmt (testPlatform noEnv) exampleHeap (VConfig exampleConfig)
    (Split ("logging.level" +:+ "." +:+ "name")) = VNil.
Proof.
  assert (Hl : isLeaf (@walk testFmt (testPlatform noEnv) exampleHeap
                         (VConfig exampleConfig) (Split "logging.level")) = true)
    by reflexivity.
  split; [exact Hl|].
  exact (@walk_below_leaf testFmt (testPlatform noEnv) exampleHeap
           (VConfig exampleConfig) "logging.level" "name" Hl).
Defined.

(** The nil tree that [Scope] returns for the service svc01. *)
Lemma Get_on_empty_tree_witness :
  noEnv (getEnvVarName "logging.level") = EmptyString /\
  entries exampleHeap None = [] /\
  @Get testFmt (testPlatform noEnv) 0 exampleHeap None "logging.level"
    = Some VNil /\
  @Scope testFmt (testPlatform noEnv) exampleHeap None "logging.level"
    = (exampleHeap, None).
Proof.
  assert (Henv : @Getenv (testPlatform noEnv) (getEnvVarName "logging.level")
                 = EmptyString) by reflexivity.
  assert (He : entries exampleHeap None = []) by reflexivity.
  destruct (@Get_on_empty_tree testFmt (testPlatform noEnv) O exampleHeap None
              "logging.level" Henv He) as (Hg & _ & Hs & _).
  split; [exact Henv|]. split; [exact He|]. split; [exact Hg|exact Hs].
Defined.




(** The example configuration has four keys. *)
Lemma Len_counts_members_witness :
  uniqueKeys (entries exampleHeap exampleConfig) = true /\
  Len exampleHeap exampleConfig = 4 /\
  Len scopedHeap scopedConfig = memberCount (entries scopedHeap scopedConfig).
Proof.
  assert (Hu : uniqueKeys (entries exampleHeap exampleConfig) = true)
    by reflexivity.
  assert (Hu' : uniqueKeys (entries scopedHeap scopedConfig) = true)
    by reflexivity.
  split; [exact Hu|]. split.
  - rewrite (proj1 (Len_counts_members exampleHeap exampleConfig Hu)).
    reflexivity.
  - exact (proj1 (Len_counts_members scopedHeap scopedConfig Hu')).
Defined.

(** The service svc00 has four keys, before and after it is the tree of
    a scope. *)
Lemma Len_of_scoped_tree_witness :
  snd (@Scope testFmt (testPlatform noEnv) exampleHeap exampleConfig "services.svc00")
    = Some 5%positive /\
  uniqueKeys (objAt exampleHeap 5%positive) = true /\
  Len scopedHeap (Some 5%positive) = Len exampleHeap (Some 5%positive) /\
  Len exampleHeap (Some 5%positive) = 4.
Proof.
  assert (Hs : snd (@Scope testFmt (testPlatform noEnv) exampleHeap exampleConfig
                      "services.svc00") = Some 5%positive) by reflexivity.
  assert (Hu : uniqueKeys (objAt exampleHeap 5%positive) = true) by reflexivity.
  split; [exact Hs|]. split; [exact Hu|]. split; [|reflexivity].
  exact (proj1 (@Len_of_scoped_tree testFmt (testPlatform noEnv) exampleHeap
                  exampleConfig "services.svc00" 5%positive Hs Hu)).
Defined.

(** The two servers of the test suite: what is sent is one server for
    each of the two names. *)
Lemma Servers_after_RegisterServer_witness :
  let svr (name : string) : moduleCtor string := fun _ => name in
  Permutation
    (Servers string
       (RegisterServer string (RegisterServer string ∅ "svr00" (svr "svr00"))
          "svr01" (svr "svr01")))
    ["svr01"; "svr00"].
Proof.
  cbv zeta.
  pose proof (Servers_after_RegisterServer string
                (RegisterServer string ∅ "svr00" (fun _ => "svr00"))
                "svr01" (fun _ => "svr01")) as [Hp _].
  rewrite Hp. apply perm_skip.
  vm_compute. reflexivity.
Defined.

(** The tree scoped to the service svc00 has itself and the root as its
    ancestors. *)
Lemma Scope_extends_lineage_witness :
  snd (@Scope testFmt (testPlatform noEnv) exampleHeap exampleConfig "services.svc00")
    = Some 5%positive /\
  lineage exampleHeap exampleConfig [exampleConfig] /\
  ~ In (Some 5%positive) [exampleConfig] /\
  lineage scopedHeap (Some 5%positive) [Some 5%positive; exampleConfig] /\
  plainNamesIn scopedHeap.
Proof.
  assert (Hs : snd (@Scope testFmt (testPlatform noEnv) exampleHeap exampleConfig
                      "services.svc00") = Some 5%positive) by reflexivity.
  assert (Hl : lineage exampleHeap exampleConfig [exampleConfig])
    by (apply lineage_root; reflexivity).
  assert (Hnot : ~ In (Some 5%positive) [exampleConfig])
    by (intros [E|[]]; discriminate E).
  destruct (@Scope_extends_lineage testFmt (testPlatform noEnv) exampleHeap
              exampleConfig "services.svc00" 5%positive [exampleConfig]
              Hs Hl Hnot) as [Hl' Hp'].
  split; [exact Hs|]. split; [exact Hl|]. split; [exact Hnot|].
  split; [exact Hl'|exact (Hp' plainNamesIn_example)].
Defined.

(** * The calls on every value

    The properties of this part are about the module [Full]: inside the
    section its names stand for the definitions of that module, and the
    properties hold for every [Runtime]. *)

Section FullFacts.
Import Full.
Context `{Fmt} `{Runtime}.

(** ** The store *)

Lemma full_index_assign_eq (k : string) (v : value) (m : obj) :
  index k (assign k v m) = Some v.
Proof.
  induction m as [|[k' v'] m IH]; cbn [assign index].
  - rewrite String.eqb_refl. reflexivity.
  - destruct (String.eqb k k') eqn:E; cbn [index].
    + rewrite String.eqb_refl. reflexivity.
    + rewrite E. exact IH.
Qed.

Lemma full_index_assign_ne (k k' : string) (v : value) (m : obj) :
  k <> k' -> index k (assign k' v m) = index k m.
Proof.
  intros Hne. induction m as [|[k'' v''] m IH]; cbn [assign index].
  - destruct (String.eqb k k') eqn:E; [|reflexivity].
    apply String.eqb_eq in E. contradiction.
  - destruct (String.eqb k' k'') eqn:E; cbn [index].
    + apply String.eqb_eq in E. subst k''.
      destruct (String.eqb k k') eqn:E'; [|reflexivity].
      apply String.eqb_eq in E'. contradiction.
    + destruct (String.eqb k k''); [reflexivity|exact IH].
Qed.


Lemma full_objAt_insert_eq (h : heap) (r : loc) (m : obj) :
  objAt (<[r := m]> h) r = m.
Proof. unfold objAt, heap, obj. rewrite lookup_insert_eq. reflexivity. Qed.

(** ** The end of a lookup that may not ask the parent *)

Lemma full_get_no_parent (fuel : nat) (h : heap) (c : Config) (path : string) :
  get fuel h c path false = resolved h c path.
Proof.
  unfold resolved. destruct fuel; cbn [get]; cbv zeta;
    (destruct (negb (String.eqb (Getenv (getEnvVarName path)) EmptyString));
     [reflexivity|]);
    (destruct (walk h (VConfig c) (Split path)) as [cur| |];
     [destruct cur; reflexivity|reflexivity|reflexivity]).
Qed.

Lemma full_get_unfold (fuel : nat) (h : heap) (c : Config) (path : string) :
  get fuel h c path true =
  let v := Getenv (getEnvVarName path) in
  if negb (String.eqb v EmptyString) then Ret (VString v)
  else
    cur <- walk h (VConfig c) (Split path) ;;
    if negb (isNil cur) then Ret cur
    else
      match Parent h c with
      | Some parent =>
          match fuel with
          | O => NoReturn
          | S fuel' => get fuel' h (Some parent) path true
          end
      | None => Ret VNil
      end.
Proof. destruct fuel; reflexivity. Qed.

(** ** The fallback to the parent *)

Lemma full_get_lineage (h : heap) (path : string) (c : Config) (cs : list Config) :
  Getenv (getEnvVarName path) = EmptyString ->
  lineage h c cs ->
  forall fuel, (length cs <= S fuel)%nat ->
  get fuel h c path true = firstFound h path cs.
Proof.
  intros Henv Hl. induction Hl as [c Hp|c parent cs Hp Hl IH]; intros fuel Hfuel.
  - rewrite full_get_unfold. cbv zeta. rewrite Henv. cbn [String.eqb negb firstFound].
    destruct (walk h (VConfig c) (Split path)) as [cur| |]; cbn [bind];
      try reflexivity.
    destruct cur; cbn [isNil negb]; try reflexivity.
    rewrite Hp. reflexivity.
  - rewrite full_get_unfold. cbv zeta. rewrite Henv. cbn [String.eqb negb firstFound].
    destruct (walk h (VConfig c) (Split path)) as [cur| |]; cbn [bind];
      try reflexivity.
    destruct cur; cbn [isNil negb]; try reflexivity.
    rewrite Hp. destruct fuel as [|fuel].
    + simpl in Hfuel. inversion Hl; subst; simpl in Hfuel; lia.
    + apply IH. simpl in Hfuel. lia.
Qed.

Lemma full_get_endless (h : heap) (path : string) :
  Getenv (getEnvVarName path) = EmptyString ->
  forall fuel c,
  (forall n, Parent h (ancestor h n c) <> None /\
             walk h (VConfig (ancestor h n c)) (Split path) = Ret VNil) ->
  get fuel h c path true = NoReturn.
Proof.
  intros Henv. induction fuel as [|fuel IH]; intros c Hall;
    rewrite full_get_unfold; cbv zeta; rewrite Henv;
    cbn [String.eqb negb];
    destruct (Hall O) as [Hp Hw]; cbn [ancestor] in Hp, Hw;
    rewrite Hw; cbn [bind isNil negb];
    destruct (Parent h c) as [parent|] eqn:Ep; try contradiction;
    try reflexivity.
  apply IH. intros n. specialize (Hall (S n)). cbn [ancestor] in Hall.
  rewrite Ep in Hall. exact Hall.
Qed.

(** C2, as the code has it.  Let the tree [c] have the parent [parent],
    let the variable derived from the path be unset, and let the
    traversal of [c] return absence.  Then [Get] on [c] is [Get] on the
    parent for the same, whole path.  When the ancestors of [c] are the
    trees [cs], the last of which has no parent, [Get] ends as the first
    of their traversals that does not return absence: it returns the
    value that traversal finds, it panics or does not return where that
    traversal does (it panics on a field that is not exported), and it
    returns absence ([VNil]) when every traversal does.  When every ancestor has a parent in its turn
    and the traversal of each returns absence, [Get] does not return. *)
Theorem Get_falls_back_along_lineage
    (h : heap) (c : Config) (parent : loc) (path : string) :
  Getenv (getEnvVarName path) = EmptyString ->
  walk h (VConfig c) (Split path) = Ret VNil ->
  Parent h c = Some parent ->
  (forall fuel, Get (S fuel) h c path = Get fuel h (Some parent) path) /\
  (forall cs fuel, lineage h (Some parent) cs -> (length cs <= S fuel)%nat ->
     Get (S fuel) h c path = firstFound h path cs) /\
  ((forall n, Parent h (ancestor h n (Some parent)) <> None /\
              walk h (VConfig (ancestor h n (Some parent))) (Split path)
              = Ret VNil) ->
   forall fuel, Get fuel h c path = NoReturn).
Proof.
  intros Henv Hwalk Hp.
  assert (Hstep : forall fuel,
             Get (S fuel) h c path = Get fuel h (Some parent) path).
  { intros fuel. unfold Get. rewrite (full_get_unfold (S fuel)). cbv zeta.
    rewrite Henv, Hwalk, Hp. reflexivity. }
  split; [exact Hstep|]. split.
  - intros cs fuel Hl Hfuel. rewrite Hstep. unfold Get.
    apply full_get_lineage; assumption.
  - intros Hall fuel. unfold Get. apply full_get_endless; [exact Henv|].
    intros [|n]; cbn [ancestor].
    + split; [rewrite Hp; discriminate|exact Hwalk].
    + rewrite Hp. apply Hall.
Qed.

(** ** The elements of a sequence *)

Lemma full_scanElemKeys_returns (h : heap) (tok : string) (el : value)
    (kvs : list (value * value)) (next : value) :
  textsReturn h kvs ->
  scanElemKeys h tok el kvs next
  = Ret (if nameSelects h tok kvs then el else next).
Proof.
  unfold textsReturn, nameSelects.
  induction kvs as [|[k v] kvs IH]; intros Hall; [reflexivity|].
  apply List.Forall_cons_iff in Hall. destruct Hall as [(sk & Hk & Hv) Hall].
  cbn [fst snd] in Hk, Hv.
  cbn [scanElemKeys existsb fst snd]. rewrite Hk. cbn [bind textOr].
  destruct (EqualFold "name" sk) eqn:En; cbn [negb andb orb].
  - destruct (Hv eq_refl) as (sv & Hsv). rewrite Hsv. cbn [bind textOr].
    destruct (EqualFold tok sv); cbn [orb]; [reflexivity|exact (IH Hall)].
  - exact (IH Hall).
Qed.

Lemma full_scanElemKeys_range (h : heap) (tok : string) (el : value)
    (kvs : list (value * value)) (next v : value) :
  scanElemKeys h tok el kvs next = Ret v -> v = el \/ v = next.
Proof.
  induction kvs as [|[k x] kvs IH]; cbn [scanElemKeys].
  - intros [= <-]. right. reflexivity.
  - destruct (toString h (derefValue k)) as [sk| |]; cbn [bind];
      try discriminate.
    destruct (EqualFold "name" sk); cbn [negb]; [|exact IH].
    destruct (toStringWithOpts h (derefValue x) false) as [sv| |]; cbn [bind];
      try discriminate.
    destruct (EqualFold tok sv); [|exact IH].
    intros [= <-]. left. reflexivity.
Qed.

Lemma full_scanElemFields_spec (tok : string) (el : value)
    (flds : list (string * bool * bool * value)) (next : value) :
  scanElemFields tok el flds next =
  match find (fieldSelects tok) flds with
  | Some (n, exported, _, v) =>
      if EqualFold "name" n then Ret el
      else if exported then Ret v else Panic
  | None => Ret next
  end.
Proof.
  induction flds as [|[[[n exported] iface] v] flds IH]; [reflexivity|].
  cbn [scanElemFields find fieldSelects].
  destruct (EqualFold "name" n) eqn:En.
  - destruct iface; cbn [negb andb]; [exact IH|].
    destruct (underlying v); try exact IH.
    destruct (EqualFold tok s); [rewrite En; reflexivity|exact IH].
  - destruct (EqualFold tok n); [rewrite En; reflexivity|exact IH].
Qed.

(** C3, as the code has it.  What the look at one element [x] of a
    sequence does to [next], for the token [tok], once the trace of the
    element has returned (it does at once unless [LSX_DEBUG] is set):
    - an element that is a map is selected, whole, when one of its keys
      named "name" holds the token, and is passed over otherwise,
      provided the text of its keys and of the values of those named
      "name" is obtained; in any case the token is not matched against
      its other keys, and what is returned is the element or [next];
    - in an element that is a struct the fields are taken in the order
      of their declaration and the first that decides is followed: a
      field named "name", exported or not, decides by its string value,
      and selects the whole element; any other field decides by its
      name, and selects its own value when it is exported; when it is
      not exported the lookup panics;
    - any other element is passed over. *)
Theorem scanElem_selects_or_panics
    (h : heap) (tok : string) (x next : value) :
  logCurVal h (derefValue x) = Ret tt ->
  let el := derefValue x in
  match kindOf el with
  | Map =>
      (textsReturn h (entriesOf h el) ->
       scanElem h tok x next
       = Ret (if nameSelects h tok (entriesOf h el) then el else next)) /\
      (forall v, scanElem h tok x next = Ret v -> v = el \/ v = next)
  | Struct =>
      scanElem h tok x next =
      match find (fieldSelects tok) (fieldsOf el) with
      | Some (n, exported, _, v) =>
          if EqualFold "name" n then Ret el
          else if exported then Ret v else Panic
      | None => Ret next
      end
  | _ => scanElem h tok x next = Ret next
  end.
Proof.
  intros Hlog. cbv zeta. unfold scanElem. cbv zeta. rewrite Hlog. cbn [bind].
  destruct (kindOf (derefValue x)); try reflexivity.
  - split.
    + apply full_scanElemKeys_returns.
    + intros v. apply full_scanElemKeys_range.
  - apply full_scanElemFields_spec.
Qed.

(** ** Scope *)

(** C4, as the code has it.  [Scope] resolves the path without asking
    the parent, and ends as that resolution does when it panics or does
    not return.  When the result is a [map[string]interface{}] that is
    not nil, the two reserved keys are set in that map, the parent key to
    the tree [c] and the scope key to the path, and the map is returned
    as a [Config].  When it is the nil [map[string]interface{}], the
    assignment of the parent key panics.  For every other result, a
    [Config] and absence among them, the nil tree is returned and the
    store is left as it is. *)
Theorem Scope_wraps_map_or_panics (h : heap) (c : Config) (scope : string) :
  (forall fuel, get fuel h c scope false = resolved h c scope) /\
  match resolved h c scope with
  | Ret (VMap (Some m)) =>
      exists h', Scope h c scope = Ret (h', Some m) /\
        index configParentKey (objAt h' m) = Some (VConfig c) /\
        index configScopeKey (objAt h' m) = Some (VString scope)
  | Ret (VMap None) => Scope h c scope = Panic
  | Ret _ => Scope h c scope = Ret (h, None)
  | Panic => Scope h c scope = Panic
  | NoReturn => Scope h c scope = NoReturn
  end.
Proof.
  split; [intros fuel; apply full_get_no_parent|].
  unfold Scope. rewrite full_get_no_parent.
  destruct (resolved h c scope) as [v| |]; cbn [bind]; try reflexivity.
  destruct v; try reflexivity.
  destruct r as [m|]; [|reflexivity].
  eexists. split; [reflexivity|].
  rewrite full_objAt_insert_eq. split.
  - rewrite full_index_assign_ne by discriminate.
    apply full_index_assign_eq.
  - apply full_index_assign_eq.
Qed.




(** ** The encoding *)

Lemma full_memberCount_nonneg (kvs : obj) : 0 <= memberCount kvs.
Proof. unfold memberCount. lia. Qed.

Lemma full_memberCount_cons (k : string) (v : value) (kvs : obj) :
  memberCount ((k, v) :: kvs)
  = if reserved k then memberCount kvs else 1 + memberCount kvs.
Proof.
  unfold memberCount. cbn -[reserved].
  destruct (reserved k); cbn -[reserved]; lia.
Qed.

Lemma full_hasMember_count (kvs : obj) :
  hasMember kvs = (0 <? memberCount kvs).
Proof.
  induction kvs as [|[k v] kvs IH]; [reflexivity|].
  rewrite full_memberCount_cons. unfold hasMember in *. cbn -[reserved].
  pose proof (full_memberCount_nonneg kvs) as Hn.
  destruct (reserved k); cbn [negb orb].
  - exact IH.
  - symmetry. apply Z.ltb_lt. lia.
Qed.

(** The loop writes the members after what the buffer holds, when the
    count [cl] is the number of members still to write plus the number
    written. *)
Lemma full_writeEntries_members (h : heap) (cl : Z) (kvs : obj) :
  forall (cx : Z) (w : string),
  cl - cx = memberCount kvs ->
  writeEntries h cl cx kvs w =
  (r <- members h kvs ;;
   match r with
   | Ok t => Ret (Ok (w +:+ t))
   | Err msg => Ret (Err msg)
   end).
Proof.
  induction kvs as [|[k v] kvs IH]; intros cx w Hcl.
  - cbn [writeEntries members bind]. rewrite append_empty_r. reflexivity.
  - rewrite full_memberCount_cons in Hcl. cbn [writeEntries members].
    destruct (reserved k); [apply IH, Hcl|].
    destruct (jsonMarshal h v) as [[buf|msg]| |]; cbn [bind]; try reflexivity.
    rewrite IH by lia. rewrite full_hasMember_count.
    pose proof (full_memberCount_nonneg kvs) as Hn.
    destruct (members h kvs) as [[tail|msg]| |]; cbn [bind]; try reflexivity.
    do 2 f_equal.
    destruct (cx <? cl - 1) eqn:E1; destruct (0 <? memberCount kvs) eqn:E2;
      try (apply Z.ltb_lt in E1); try (apply Z.ltb_ge in E1);
      try (apply Z.ltb_lt in E2); try (apply Z.ltb_ge in E2); try lia;
      rewrite !append_assoc; reflexivity.
Qed.

Lemma full_index_cons_other (k k' : string) (v : value) (kvs : obj) :
  k <> k' -> index k ((k', v) :: kvs) = index k kvs.
Proof.
  intros Hne. cbn [index]. destruct (String.eqb k k') eqn:E; [|reflexivity].
  apply String.eqb_eq in E. contradiction.
Qed.

(** In a map without a repeated key the count that [MarshalJSON] starts
    from is the number of members when each reserved key present is
    counted out. *)
Lemma full_reserved_count (kvs : obj) :
  uniqueKeys kvs = true ->
  Z.of_nat (length kvs)
  = memberCount kvs
    + (match index configScopeKey kvs with Some _ => 1 | None => 0 end)
    + (match index configParentKey kvs with Some _ => 1 | None => 0 end).
Proof.
  induction kvs as [|[k v] kvs IH]; intros Hu; [reflexivity|].
  cbn [uniqueKeys] in Hu. destruct (index k kvs) eqn:Ek; [discriminate Hu|].
  specialize (IH Hu). rewrite full_memberCount_cons.
  change (Z.of_nat (length ((k, v) :: kvs))) with (Z.of_nat (S (length kvs))).
  rewrite Nat2Z.inj_succ, IH. unfold reserved.
  destruct (String.eqb k configScopeKey) eqn:Es.
  - apply String.eqb_eq in Es. subst k. rewrite Ek.
    cbn [orb index]. rewrite String.eqb_refl.
    change (String.eqb configParentKey configScopeKey) with false.
    cbv iota. lia.
  - destruct (String.eqb k configParentKey) eqn:Ep.
    + apply String.eqb_eq in Ep. subst k. rewrite Ek.
      cbn [orb index]. rewrite String.eqb_refl.
      change (String.eqb configScopeKey configParentKey) with false.
      cbv iota. lia.
    + apply String.eqb_neq in Es, Ep. cbn [orb].
      rewrite !full_index_cons_other by congruence. lia.
Qed.

(** For a tree whose reserved keys, when present, hold a text and a
    [Config], [MarshalJSON] ends as the encoding of its members, one
    after the other, does: when [json.Marshal] returns bytes for the
    value of every key that is not reserved, it returns the object of
    these members, in the order of enumeration and without the reserved
    keys; when one of these calls returns an error, panics or does not
    return, so does [MarshalJSON]. *)
Theorem MarshalJSON_members_or_failure (h : heap) (c : Config) :
  uniqueKeys (entries h c) = true ->
  reservedWellTyped (entries h c) = true ->
  MarshalJSON h c =
  (r <- members h (entries h c) ;;
   match r with
   | Ok t => Ret (Ok ("{" +:+ t +:+ "}"))
   | Err msg => Ret (Err msg)
   end).
Proof.
  intros Hu Ht. unfold MarshalJSON.
  pose proof (full_reserved_count (entries h c) Hu) as Hlen.
  unfold reservedWellTyped in Ht. apply andb_true_iff in Ht.
  destruct Ht as [Hs Hp].
  rewrite full_writeEntries_members.
  - destruct (members h (entries h c)) as [[t|msg]| |]; reflexivity.
  - destruct (index configScopeKey (entries h c)) as [[]|];
      try discriminate Hs;
      destruct (index configParentKey (entries h c)) as [[]|];
      try discriminate Hp; lia.
Qed.

Lemma full_writeEntries_failure (h : heap) (kvs : obj) :
  forall (cl cx : Z) (w : string),
  match firstFailure h kvs with
  | Ret (Some msg) => writeEntries h cl cx kvs w = Ret (Err msg)
  | Ret None => exists buf, writeEntries h cl cx kvs w = Ret (Ok buf)
  | Panic => writeEntries h cl cx kvs w = Panic
  | NoReturn => writeEntries h cl cx kvs w = NoReturn
  end.
Proof.
  induction kvs as [|[k v] kvs IH]; intros cl cx w.
  - cbn [firstFailure writeEntries]. eexists. reflexivity.
  - cbn [writeEntries firstFailure].
    destruct (reserved k); [apply IH|].
    destruct (jsonMarshal h v) as [[buf|msg]| |]; cbn [bind];
      try reflexivity.
    apply IH.
Qed.

(** Whatever the tree, [MarshalJSON] ends as the calls of [json.Marshal]
    on the values of its keys that are not reserved, taken in the order
    of enumeration: it returns bytes when each of them does, and else
    ends as the first that does not, with the error of that call, with
    its panic, or not at all.  The values of the two reserved keys are
    never encoded. *)
Theorem MarshalJSON_ends_as_first_failure (h : heap) (c : Config) :
  match firstFailure h (entries h c) with
  | Ret (Some msg) => MarshalJSON h c = Ret (Err msg)
  | Ret None => exists buf, MarshalJSON h c = Ret (Ok buf)
  | Panic => MarshalJSON h c = Panic
  | NoReturn => MarshalJSON h c = NoReturn
  end.
Proof.
  unfold MarshalJSON.
  match goal with
  | |- context [writeEntries h ?cl 0 ?kvs ?w] =>
      pose proof (full_writeEntries_failure h kvs cl 0 w) as Hw
  end.
  destruct (firstFailure h (entries h c)) as [[msg|]| |].
  - rewrite Hw. reflexivity.
  - destruct Hw as [buf Hw]. rewrite Hw. eexists. reflexivity.
  - rewrite Hw. reflexivity.
  - rewrite Hw. reflexivity.
Qed.

(** ** The values that cannot be rendered *)




End FullFacts.

(** * The calls on every value, on the examples *)

(** C2, counterexample.  The tree scoped to the service svc00 and scoped
    again, through its parent, to the same service is its own parent.
    It has a parent, the variable is unset and the traversal for the
    path "nowhere" returns absence; [Get] asks the same tree again and
    again and does not return, whatever the fuel. *)
Lemma Get_as_specified_counterexample :
  @Full.Scope testFmt (testRuntime noEnv false) exampleFull exampleConfig
     "services.svc00" = Full.Ret (scopedFull, Some 5%positive) /\
  @Full.Scope testFmt (testRuntime noEnv false) scopedFull (Some 5%positive)
     "@parent@.services.svc00" = Full.Ret (selfParentFull, Some 5%positive) /\
  Full.Parent selfParentFull (Some 5%positive) = Some 5%positive /\
  @Full.walk testFmt (testRuntime noEnv false) selfParentFull
     (Full.VConfig (Some 5%positive)) (Split "nowhere") = Full.Ret Full.VNil /\
  (forall fuel,
     @Full.Get testFmt (testRuntime noEnv false) fuel selfParentFull
        (Some 5%positive) "nowhere" = Full.NoReturn) /\
  ~ @Full.Get_as_specified testFmt (testRuntime noEnv false) selfParentFull
      (Some 5%positive) "nowhere".
Proof.
  assert (Hloop : forall fuel,
            @Full.Get testFmt (testRuntime noEnv false) fuel selfParentFull
              (Some 5%positive) "nowhere" = Full.NoReturn).
  { unfold Full.Get. induction fuel as [|fuel IH]; [reflexivity|].
    rewrite full_get_unfold.
    change (@Full.get testFmt (testRuntime noEnv false) fuel selfParentFull
              (Some 5%positive) "nowhere" true = Full.NoReturn).
    exact IH. }
  split; [reflexivity|]. split; [reflexivity|]. split; [reflexivity|].
  split; [reflexivity|]. split; [exact Hloop|].
  intros Hspec.
  destruct Hspec as (fuel & v & Hv); [discriminate|reflexivity|reflexivity|].
  rewrite Hloop in Hv. discriminate Hv.
Qed.

(** The tree scoped to the service svc00 holds no server of its own: the
    lookup of [servers.svr00.type] is answered by the root, its parent. *)
Lemma Get_falls_back_along_lineage_witness :
  @Full.Get testFmt (testRuntime noEnv false) 1 scopedFull (Some 5%positive)
     "servers.svr00.type" = Full.Ret (Full.VString "libstorage").
Proof.
  destruct (@Get_falls_back_along_lineage testFmt (testRuntime noEnv false)
              scopedFull (Some 5%positive) 1%positive "servers.svr00.type"
              eq_refl eq_refl eq_refl) as (_ & Hchain & _).
  rewrite (Hchain [Some 1%positive] 0%nat).
  - reflexivity.
  - apply Full.lineage_root. reflexivity.
  - simpl. lia.
Defined.

(** Where the traversal of the parent needs the value of a field that is
    not exported, [Get] on the child panics, and so it does where a later
    element of the sequence has a nil pointer for its name; with
    [LSX_DEBUG] set,
    [Get] on the tree scoped to svc00 does not return once it asks the
    root, whose trace does not end. *)
Lemma Get_fallback_ends_as_the_parent :
  @Full.Scope testFmt (testRuntime noEnv false) zeroHeap (Some 1%positive)
     "inner" = Full.Ret (zeroScoped, Some 3%positive) /\
  @Full.Get testFmt (testRuntime noEnv false) 1 zeroScoped (Some 3%positive)
     "level" = Full.Ret (Full.VString "info") /\
  @Full.Get testFmt (testRuntime noEnv false) 1 zeroScoped (Some 3%positive)
     "array.world" = Full.Panic /\
  @Full.Get testFmt (testRuntime noEnv false) 1 zeroScoped (Some 3%positive)
     "array.hello" = Full.Panic /\
  @Full.Get testFmt (testRuntime noEnv true) 1 scopedFull (Some 5%positive)
     "logging.level" = Full.Ret (Full.VString "info") /\
  @Full.Get testFmt (testRuntime noEnv true) 1 scopedFull (Some 5%positive)
     "servers.svr00.type" = Full.NoReturn.
Proof. repeat split; reflexivity. Qed.

(** The server svr00 of the example is selected by its name. *)
Lemma scanElem_selects_or_panics_witness :
  @Full.scanElem testFmt (testRuntime noEnv false) exampleFull "SVR00"
     (Full.VMap (Some 3%positive)) Full.VNil
  = Full.Ret (Full.VMap (Some 3%positive)).
Proof.
  pose proof (@scanElem_selects_or_panics testFmt (testRuntime noEnv false)
                exampleFull "SVR00" (Full.VMap (Some 3%positive)) Full.VNil
                eq_refl) as Hsel.
  cbv zeta in Hsel. cbn [Full.derefValue Full.kindOf] in Hsel.
  destruct Hsel as [Hsel _]. rewrite Hsel; [reflexivity|].
  repeat constructor; eexists; (split; [reflexivity|]);
    intros Hname; try discriminate Hname; eexists; reflexivity.
Defined.

(** The elements that the first part leaves out.  A struct whose field
    "world" is not exported: the token "world" makes the lookup panic,
    the token "hello" selects the struct by its name.  A field "name"
    that is not exported selects as an exported one does.  A map whose
    name is a nil pointer to a text makes the lookup panic; a nil map is
    passed over. *)
Lemma scanElem_on_unexported_and_nil :
  let rt := testRuntime noEnv false in
  let droid := Full.VStruct [ ("name", false, false, Full.VString "r2");
                              ("colour", false, false, Full.VString "blue") ] in
  @Full.scanElem testFmt rt zeroHeap "world" (hiddenStruct false) Full.VNil
    = Full.Panic /\
  @Full.scanElem testFmt rt zeroHeap "world" (hiddenStruct true) Full.VNil
    = Full.Ret (Full.VMap None) /\
  @Full.scanElem testFmt rt zeroHeap "hello" (hiddenStruct false) Full.VNil
    = Full.Ret (hiddenStruct false) /\
  @Full.scanElem testFmt rt zeroHeap "R2" droid Full.VNil = Full.Ret droid /\
  @Full.scanElem testFmt rt zeroHeap "colour" droid Full.VNil = Full.Panic /\
  @Full.scanElem testFmt rt zeroHeap "r2" (Full.VMap (Some 2%positive)) Full.VNil
    = Full.Panic /\
  @Full.scanElem testFmt rt zeroHeap "r2" (Full.VMap None) Full.VNil
    = Full.Ret Full.VNil.
Proof. cbv zeta. repeat split; reflexivity. Qed.

(** [Scope] on the examples: the service svc00 is wrapped; the zero
    [testStruct] holds a nil map in its field "World", and [Scope] to it
    panics; so does [Scope] through a field that is not exported; a
    [Config] and absence give the nil tree. *)
Lemma Scope_wraps_map_or_panics_examples :
  let rt := testRuntime noEnv false in
  @Full.Scope testFmt rt exampleFull exampleConfig "services.svc00"
    = Full.Ret (scopedFull, Some 5%positive) /\
  Full.Parent scopedFull (Some 5%positive) = exampleConfig /\
  @Full.get testFmt rt 0 zeroHeap (Some 1%positive) "data.world" false
    = Full.Ret (Full.VMap None) /\
  @Full.Scope testFmt rt zeroHeap (Some 1%positive) "data.world" = Full.Panic /\
  @Full.Scope testFmt rt zeroHeap (Some 1%positive) "array.world" = Full.Panic /\
  @Full.Scope testFmt rt scopedFull (Some 5%positive) "@parent@"
    = Full.Ret (scopedFull, None) /\
  @Full.Scope testFmt rt exampleFull exampleConfig "services.svc01"
    = Full.Ret (exampleFull, None).
Proof. cbv zeta. repeat split; reflexivity. Qed.


(** The tree scoped to the service svc00 is encoded as the object of its
    four members. *)
Lemma MarshalJSON_members_or_failure_witness :
  Full.uniqueKeys (Full.entries scopedFull (Some 5%positive)) = true /\
  Full.reservedWellTyped (Full.entries scopedFull (Some 5%positive)) = true /\
  @Full.MarshalJSON (testRuntime noEnv false) scopedFull (Some 5%positive) =
  Full.bind (@Full.members (testRuntime noEnv false) scopedFull
               (Full.entries scopedFull (Some 5%positive)))
    (fun r => match r with
              | Ok t => Full.Ret (Ok ("{" +:+ t +:+ "}"))
              | Err msg => Full.Ret (Err msg)
              end).
Proof.
  assert (Hu : Full.uniqueKeys (Full.entries scopedFull (Some 5%positive)) = true)
    by reflexivity.
  assert (Ht : Full.reservedWellTyped
                 (Full.entries scopedFull (Some 5%positive)) = true)
    by reflexivity.
  split; [exact Hu|]. split; [exact Ht|].
  exact (@MarshalJSON_members_or_failure (testRuntime noEnv false) scopedFull
           (Some 5%positive) Hu Ht).
Defined.

(** After [Scope(ctx, "services.svc00")] the tree returned is encoded,
    and the encoding of the root does not return: the map of the service
    is reached through the member "services", and its key [@parent@],
    which is no reserved key there, holds the root. *)
Lemma MarshalJSON_after_Scope :
  (exists buf,
     @Full.MarshalJSON (testRuntime noEnv false) scopedFull (Some 5%positive)
     = Full.Ret (Ok buf)) /\
  @Full.firstFailure (testRuntime noEnv false) exampleFull
     (Full.entries exampleFull exampleConfig) = Full.Ret None /\
  (exists buf,
     @Full.MarshalJSON (testRuntime noEnv false) exampleFull exampleConfig
     = Full.Ret (Ok buf)) /\
  @Full.firstFailure (testRuntime noEnv false) scopedFull
     (Full.entries scopedFull exampleConfig) = Full.NoReturn /\
  @Full.MarshalJSON (testRuntime noEnv false) scopedFull exampleConfig
    = Full.NoReturn.
Proof.
  split; [eexists; vm_compute; reflexivity|].
  split; [vm_compute; reflexivity|].
  split; [eexists; vm_compute; reflexivity|].
  split; vm_compute; reflexivity.
Qed.

(** A text of the defined type Level, without methods, and a nil pointer
    to a text: [toString] panics on both.  On a sequence that holds the
    map of the scoped service it does not return. *)
Lemma toString_panics_exactly_when_examples :
  let rt := testRuntime noEnv false in
  @Full.toString testFmt rt exampleFull
     (Full.VNamed "Level" noMethods (Full.VString "debug")) = Full.Panic /\
  @Full.toString testFmt rt exampleFull (Full.VStringPtr None) = Full.Panic /\
  @Full.toString testFmt rt exampleFull (Full.VStringPtr (Some "debug"))
    = Full.Ret "debug" /\
  @Full.toString testFmt rt exampleFull (Full.VPtr noMethods None)
    = Full.Ret EmptyString /\
  @Full.toString testFmt rt exampleFull (Full.VMap None) = Full.Ret EmptyString /\
  @Full.toString testFmt rt scopedFull
     (Full.VSlice (Some [Full.VMap (Some 5%positive)])) = Full.NoReturn.
Proof. cbv zeta. repeat split; reflexivity. Qed.

(** The expectations of config_test.go once more, on the trees taken as
    values of [Full]: the two embeddings agree on them, on the stores
    that [Scope] leaves and on the values that [Get] returns. *)
Lemma config_test_replay_on_every_value :
  let rt := testRuntime noEnv false in
  scopedFull = liftHeap scopedHeap /\
  selfParentFull = liftHeap selfParentHeap /\
  @Full.Scope testFmt rt exampleFull exampleConfig "services.svc00"
    = Full.Ret (liftHeap scopedHeap, scopedConfig) /\
  @Full.Scope testFmt rt exampleFull exampleConfig "servers.svr00"
    = Full.Ret (liftHeap svr00Heap, svr00Config) /\
  @Full.Scope testFmt rt exampleFull exampleConfig "services.svc01"
    = Full.Ret (exampleFull, None) /\
  @Full.Get testFmt rt 0 exampleFull exampleConfig "logging.level"
    = Full.Ret (lift (VString "debug")) /\
  @Full.Get testFmt rt 1 scopedFull scopedConfig "logging.level"
    = Full.Ret (lift (VString "info")) /\
  @Full.Get testFmt rt 1 (liftHeap svr00Heap) svr00Config "logging.level"
    = Full.Ret (lift (VString "debug")) /\
  @Full.Get testFmt rt 1 (liftHeap svr00Heap) svr00Config "addrs"
    = Full.Ret (lift (VSlice [VString "tcp://127.0.0.1:7979"])) /\
  @Full.Get testFmt rt 0 (liftHeap testHeap) exampleConfig "data.name"
    = Full.Ret (lift (VString "hello")) /\
  @Full.Get testFmt rt 0 (liftHeap testHeap) exampleConfig "data.world.logLevel"
    = Full.Ret (lift (VInt 10)) /\
  @Full.Get testFmt rt 0 (liftHeap testHeap) exampleConfig "array.c3p0"
    = Full.Ret (lift (VMap 20)) /\
  @Full.Get testFmt rt 0 (liftHeap testHeap) exampleConfig
     "array.hello.world.loglevel" = Full.Ret (lift (VInt 10)) /\
  @Full.Get testFmt rt 0 (liftHeap testHeap) exampleConfig
     "array.c3p0.myTestStruct.world.loglevel" = Full.Ret (lift (VInt 5)).
Proof. cbv zeta. repeat split; vm_compute; reflexivity. Qed.
